(** * Visual secret sharing encoder of js-vsss ([shareImage] of main.js)

    A shallow embedding of the encoder and of the helpers it calls, with the
    properties of the pattern table, of the pixel classification, of the block
    placement and of the two output rasters.

    Conventions.
    - JS numbers used as indices, widths and counters are non-negative
      integers far below 2^53, where double arithmetic is exact: they are
      [nat] here.  Channel values (elements of a [Uint8ClampedArray]) are [Z].
    - [Math.random] is the sequence [rng : nat -> Q] of the values its
      successive calls return; the encoder state counts the calls made.  The
      product [Math.random() * max] is taken in the rationals.
    - A typed array never grows: a store outside its bounds is dropped, which
      is what the list update [<[i:=v]>] does; a load outside its bounds is
      [undefined], here [None].
    - The DOM glue around the encoder ([toImageData], [imageData2Image], the
      [MyImage] wrappers) moves rasters around unchanged and is left out: the
      encoder takes the source [ImageData] and returns the two
      [sharedImageData] rasters.
    - The binarizer computes in doubles: its numbers are the primitive
      binary64 floats, with the operations of IEEE 754 that JS uses.
    - Pointer coordinates and image positions are whole CSS pixels, [Z];
      the images of [App.images] are distinct objects, so the identity test
      [img2 == img] is the equality of their indices in the array. *)

From Stdlib Require Import ZArith QArith Qround Lia List.
From Stdlib Require Import PrimFloat.
From stdpp Require Import base list.

Close Scope Q_scope.
Open Scope nat_scope.

Module Vsss.

(** ** Results of a JS computation *)

Inductive result (A : Type) : Type :=
| Ok (a : A)
| TypeError
| OutOfFuel.
Arguments Ok {A} a.
Arguments TypeError {A}.
Arguments OutOfFuel {A}.

Definition bind {A B : Type} (m : result A) (k : A → result B) : result B :=
  match m with
  | Ok a => k a
  | TypeError => TypeError
  | OutOfFuel => OutOfFuel
  end.

Notation "'let*' x := m 'in' k" := (bind m (fun x => k))
  (at level 10, x name, m at level 100, k at level 200,
   format "'let*'  x  :=  m  'in'  '/' k").

(** [a[i]] on a JS array the code then dereferences: [undefined] makes the
    following property access throw. *)
Definition index {A : Type} (l : list A) (i : Z) : result A :=
  if (i <? 0)%Z then TypeError
  else match l !! Z.to_nat i with
       | Some a => Ok a
       | None => TypeError
       end.

(** [p[k]] read as a value stored into a [Uint8ClampedArray]: [undefined]
    is stored as 0. *)
Definition elem (p : list Z) (k : nat) : Z := default 0%Z (p !! k).

(** [a[i] == v] on a typed array: [undefined == v] is false. *)
Definition looseEq (o : option Z) (v : Z) : bool :=
  match o with
  | Some b => (b =? v)%Z
  | None => false
  end.

(** [for (let i = start; i < stop; i += step) body] *)
Fixpoint forLoop {St : Type} (fuel i stop step : nat)
    (body : nat → St → result St) (s : St) : result St :=
  match fuel with
  | O => if i <? stop then OutOfFuel else Ok s
  | S fuel' =>
      if i <? stop then
        let* s' := body i s in forLoop fuel' (i + step) stop step body s'
      else Ok s
  end.

(** ** Rasters *)

Record ImageData : Type := mkImageData {
  width : nat;
  height : nat;
  data : list Z
}.

(** [ctx.createImageData(w, h)]: transparent black, four bytes a pixel. *)
Definition createImageData (w h : nat) : ImageData :=
  {| width := w; height := h; data := replicate (4 * w * h) 0%Z |}.

(** An [ImageData] holds [4 * width * height] bytes. *)
Definition wfImage (img : ImageData) : Prop :=
  length (data img) = 4 * width img * height img.

(** ** main.js *)

(** [function randInt(max) { return Math.floor(Math.random() * max); }],
    on the value [u] that [Math.random()] returned. *)
Definition randInt (u : Q) (max : nat) : Z :=
  Qfloor (u * inject_Z (Z.of_nat max)).

Definition patterns : list (list Z) :=
  [ [ 0; 0; 0; 0; 0; 0; 0; 0;
      0; 0; 0; 255; 0; 0; 0; 255 ];
    [ 0; 0; 0; 255; 0; 0; 0; 255;
      0; 0; 0; 0; 0; 0; 0; 0 ];
    [ 0; 0; 0; 0; 0; 0; 0; 255;
      0; 0; 0; 0; 0; 0; 0; 255 ];
    [ 0; 0; 0; 255; 0; 0; 0; 0;
      0; 0; 0; 255; 0; 0; 0; 0 ];
    [ 0; 0; 0; 0; 0; 0; 0; 255;
      0; 0; 0; 255; 0; 0; 0; 0 ];
    [ 0; 0; 0; 255; 0; 0; 0; 0;
      0; 0; 0; 0; 0; 0; 0; 255 ] ]%Z.

Definition blackPairs : list (Z * Z) :=
  [ (0, 1); (1, 0); (2, 3); (3, 2); (4, 5); (5, 4) ]%Z.

(** The encoder state: the calls made to [Math.random] so far and the byte
    arrays of [sharedImageData1] and [sharedImageData2]. *)
Record state : Type := mkState {
  calls : nat;
  data1 : list Z;
  data2 : list Z
}.

(** [data[i+0] == 0 && data[i+1] == 0 && data[i+2] == 0 && data[i+3] == 255] *)
Definition isBlack (d : list Z) (i : nat) : bool :=
  looseEq (d !! (i + 0)) 0 &&
  looseEq (d !! (i + 1)) 0 &&
  looseEq (d !! (i + 2)) 0 &&
  looseEq (d !! (i + 3)) 255.

(** The offset [j] of the block of the source pixel at byte index [i]. *)
Definition blockOffset (sw w i : nat) : nat :=
  let ystride := i / (sw * 4) * (w * 4) in
  2 * i + ystride.

(** The [for k] loop of the black branch. *)
Definition writeBlack (j w : nat) (p1 p2 : list Z)
    (d : list Z * list Z) : list Z * list Z :=
  foldl (fun '(d1, d2) k =>
           let d1 := <[j + k := elem p1 k]> d1 in
           let d1 := <[j + w * 4 + k := elem p1 (k + 8)]> d1 in
           let d2 := <[j + k := elem p2 k]> d2 in
           let d2 := <[j + w * 4 + k := elem p2 (k + 8)]> d2 in
           (d1, d2))
        d (seq 0 8).

(** The [for k] loop of the white branch. *)
Definition writeWhite (j w : nat) (p : list Z)
    (d : list Z * list Z) : list Z * list Z :=
  foldl (fun '(d1, d2) k =>
           let d1 := <[j + k := elem p k]> d1 in
           let d1 := <[j + w * 4 + k := elem p (k + 8)]> d1 in
           let d2 := <[j + k := elem p k]> d2 in
           let d2 := <[j + w * 4 + k := elem p (k + 8)]> d2 in
           (d1, d2))
        d (seq 0 8).

Definition blackBranch (rng : nat → Q) (j w : nat) (s : state) : result state :=
  let* pair := index blackPairs (randInt (rng (calls s)) (length blackPairs)) in
  let* p1 := index patterns (fst pair) in
  let* p2 := index patterns (snd pair) in
  let '(d1, d2) := writeBlack j w p1 p2 (data1 s, data2 s) in
  Ok {| calls := S (calls s); data1 := d1; data2 := d2 |}.

Definition whiteBranch (rng : nat → Q) (j w : nat) (s : state) : result state :=
  let* p := index patterns (randInt (rng (calls s)) (length patterns)) in
  let '(d1, d2) := writeWhite j w p (data1 s, data2 s) in
  Ok {| calls := S (calls s); data1 := d1; data2 := d2 |}.

(** The body of the loop over the source bytes, at index [i]. *)
Definition pixelStep (rng : nat → Q) (src : list Z) (sw w : nat)
    (i : nat) (s : state) : result state :=
  let j := blockOffset sw w i in
  if isBlack src i then blackBranch rng j w s
  else whiteBranch rng j w s.

(** The encoder up to the end of its loop: the final state. *)
Definition shareLoop (rng : nat → Q) (src : ImageData) : result state :=
  let sw := width src in
  let w := width src * 2 in
  let h := height src * 2 in
  let sharedImageData1 := createImageData w h in
  let sharedImageData2 := createImageData w h in
  forLoop (length (data src)) 0 (length (data src)) 4
    (pixelStep rng (data src) sw w)
    {| calls := 0; data1 := data sharedImageData1;
       data2 := data sharedImageData2 |}.

(** [shareImage]: the two share rasters. *)
Definition shareImage (rng : nat → Q) (src : ImageData)
    : result (ImageData * ImageData) :=
  let w := width src * 2 in
  let h := height src * 2 in
  let* s := shareLoop rng src in
  Ok ({| width := w; height := h; data := data1 s |},
      {| width := w; height := h; data := data2 s |}).

(** ** Reading rasters and patterns *)

(** Row-major byte offset of the pixel [(x, y)] in a raster [w] wide. *)
Definition pixelOffset (w x y : nat) : nat := 4 * (y * w + x).

Inductive colour : Type := B | W.

#[global] Instance colour_eq_dec : EqDecision colour.
Proof. solve_decision. Defined.

(** A sub-pixel is black when the encoder's own test says so, and white
    otherwise. *)
Definition colourAt (d : list Z) (i : nat) : colour :=
  if isBlack d i then B else W.

(** The four sub-pixels of a pattern: top-left, top-right, bottom-left,
    bottom-right. *)
Definition patternColours (p : list Z) : list colour :=
  map (fun n => colourAt p (4 * n)) (seq 0 4).

(** The bytes of the 2x2 block of source pixel [(x, y)] in a share, in the
    order of a pattern: the top row, then the bottom row. *)
Definition blockBytes (img : ImageData) (x y : nat) : list (option Z) :=
  map (fun k => data img !! (pixelOffset (width img) (2 * x) (2 * y) + k))
      (seq 0 8) ++
  map (fun k => data img !! (pixelOffset (width img) (2 * x) (2 * y + 1) + k))
      (seq 0 8).

(** The colours of that block, row-major. *)
Definition blockColours (img : ImageData) (x y : nat) : list colour :=
  [ colourAt (data img) (pixelOffset (width img) (2 * x) (2 * y));
    colourAt (data img) (pixelOffset (width img) (2 * x + 1) (2 * y));
    colourAt (data img) (pixelOffset (width img) (2 * x) (2 * y + 1));
    colourAt (data img) (pixelOffset (width img) (2 * x + 1) (2 * y + 1)) ].

(** Stacking two sub-pixels: black wins. *)
Definition overlay (a b : colour) : colour :=
  match a, b with
  | W, W => W
  | _, _ => B
  end.

Definition overlayBlocks (a b : list colour) : list colour :=
  zip_with overlay a b.

Definition countBlack (l : list colour) : nat :=
  length (filter (fun c => c = B) l).

(** The four channel bytes of the pixel at byte offset [i]. *)
Definition pixelBytes (d : list Z) (i : nat) : list (option Z) :=
  [ d !! (i + 0); d !! (i + 1); d !! (i + 2); d !! (i + 3) ].

(** The four sub-pixels of a pattern as bytes, row-major. *)
Definition patternPixels (p : list Z) : list (list (option Z)) :=
  map (fun n => pixelBytes p (4 * n)) (seq 0 4).

(** The four sub-pixels of the block of source pixel [(x, y)] in a share,
    at [(2x, 2y)], [(2x+1, 2y)], [(2x, 2y+1)] and [(2x+1, 2y+1)]. *)
Definition blockPixels (img : ImageData) (x y : nat) : list (list (option Z)) :=
  [ pixelBytes (data img) (pixelOffset (width img) (2 * x) (2 * y));
    pixelBytes (data img) (pixelOffset (width img) (2 * x + 1) (2 * y));
    pixelBytes (data img) (pixelOffset (width img) (2 * x) (2 * y + 1));
    pixelBytes (data img) (pixelOffset (width img) (2 * x + 1) (2 * y + 1)) ].

Definition opaqueBlack : list (option Z) := [Some 0; Some 0; Some 0; Some 255]%Z.
Definition transparent : list (option Z) := [Some 0; Some 0; Some 0; Some 0]%Z.
Definition opaqueWhite : list (option Z) :=
  [Some 255; Some 255; Some 255; Some 255]%Z.

Definition invert (c : colour) : colour :=
  match c with
  | B => W
  | W => B
  end.

Definition countWhite (l : list colour) : nat :=
  length (filter (fun c => c = W) l).

(** The values [Math.random] may return. *)
Definition unitDraw (u : Q) : Prop := (0 <= u)%Q ∧ (u < 1)%Q.
Definition unitRng (rng : nat → Q) : Prop := ∀ n, unitDraw (rng n).

(** Test inputs. *)
Definition mkSrc (w h : nat) (px : list (list Z)) : ImageData :=
  {| width := w; height := h; data := concat px |}.
Definition black : list Z := [0; 0; 0; 255]%Z.
Definition white : list Z := [255; 255; 255; 255]%Z.
Definition grey : list Z := [128; 128; 128; 255]%Z.
Definition constRng (u : Q) : nat → Q := fun _ => u.
Definition src21 : ImageData := mkSrc 2 1 [black; white].
Definition halfRng : nat → Q := constRng (1 # 2).

(** ** Notions used in the proofs *)

(** What the [for k] loops do to one share. *)
Definition writeRows (j w : nat) (p : list Z) (d : list Z) : list Z :=
  foldl (fun d k => <[j + w * 4 + k := elem p (k + 8)]> (<[j + k := elem p k]> d))
        d (seq 0 8).

(** The patterns the step at byte index [i] stores into the two shares when
    [c] calls to [Math.random] came before. *)
Definition chosen (rng : nat → Q) (src : list Z) (c i : nat)
    : result (list Z * list Z) :=
  if isBlack src i then
    let* pair := index blackPairs (randInt (rng c) (length blackPairs)) in
    let* p1 := index patterns (fst pair) in
    let* p2 := index patterns (snd pair) in
    Ok (p1, p2)
  else
    let* p := index patterns (randInt (rng c) (length patterns)) in
    Ok (p, p).

(** The block of source pixel [q] holds the patterns chosen for it. *)
Definition blockDone (rng : nat → Q) (src : ImageData) (d1 d2 : list Z)
    (q : nat) : Prop :=
  ∃ p1 p2, chosen rng (data src) q (4 * q) = Ok (p1, p2) ∧
    ∀ k, k < 8 →
      d1 !! (blockOffset (width src) (width src * 2) (4 * q) + k)
        = Some (elem p1 k) ∧
      d1 !! (blockOffset (width src) (width src * 2) (4 * q) + width src * 2 * 4 + k)
        = Some (elem p1 (k + 8)) ∧
      d2 !! (blockOffset (width src) (width src * 2) (4 * q) + k)
        = Some (elem p2 k) ∧
      d2 !! (blockOffset (width src) (width src * 2) (4 * q) + width src * 2 * 4 + k)
        = Some (elem p2 (k + 8)).

(** After [q] iterations: [q] draws made, the arrays keep their size, and
    the blocks of the pixels before [q] are done. *)
Definition loopInv (rng : nat → Q) (src : ImageData) (q : nat) (s : state) : Prop :=
  calls s = q ∧
  length (data1 s) = 16 * width src * height src ∧
  length (data2 s) = 16 * width src * height src ∧
  ∀ q', q' < q → blockDone rng src (data1 s) (data2 s) q'.

(** The two patterns of a pair are black in complementary places. *)
Definition complementary (ab : Z * Z) : Prop :=
  ∀ p1 p2, index patterns ab.1 = Ok p1 → index patterns ab.2 = Ok p2 →
    patternColours p2 = map invert (patternColours p1) ∧
    overlayBlocks (patternColours p1) (patternColours p2) = [B; B; B; B] ∧
    p1 ≠ p2.

(** ** The specification's words *)

(** The table of section 4.1 of the specification, as it is printed there. *)
Definition specPatternTable : list (list colour) :=
  [ [W; W; W; B];
    [W; B; W; W];
    [W; W; B; B];
    [B; W; B; W];
    [W; B; B; W];
    [B; W; W; B] ].

(** A sub-pixel as section 4.3 of the specification encodes it: opaque, and
    grey level 0 or 255. *)
Definition specSubPixel (px : list (option Z)) : Prop :=
  px = opaqueBlack ∨ px = opaqueWhite.

(** A sub-pixel as the pattern table encodes it: colour channels 0, and
    opaque for black, transparent for white. *)
Definition codeSubPixel (px : list (option Z)) : Prop :=
  px = opaqueBlack ∨ px = transparent.

(** ** main.js: the binarizer *)

(** A positive integer as a double; exact below 2^53. *)
Fixpoint posNumber (p : positive) : float :=
  match p with
  | xH => 1
  | xO p' => 2 * posNumber p'
  | xI p' => 2 * posNumber p' + 1
  end%float.

(** An element read from a [Uint8ClampedArray] as the number JS computes
    with: the integer itself, or [NaN] for [undefined]. *)
Definition toNumber (o : option Z) : float :=
  match o with
  | Some Z0 => 0%float
  | Some (Zpos p) => posNumber p
  | Some (Zneg p) => (- posNumber p)%float
  | None => nan
  end.

Definition BINARY_THRESHOLD : float := 128%float.

(** The decimal literals are read as JS reads them: the nearest double. *)
#[local] Set Warnings "-inexact-float".

(** [0.2126 * data[i] + 0.7152 * data[i + 1] + 0.0722 * data[i + 2]] *)
Definition luminance (d : list Z) (i : nat) : float :=
  let r := toNumber (d !! i) in
  let g := toNumber (d !! (i + 1)) in
  let b := toNumber (d !! (i + 2)) in
  (0.2126 * r + 0.7152 * g + 0.0722 * b)%float.

#[local] Set Warnings "+inexact-float".

(** The body of the loop of [toBinaryImage], at byte index [i]. *)
Definition binaryStep (threshold : float) (src : list Z) (i : nat)
    (d : list Z) : result (list Z) :=
  let c := luminance src i in
  let d :=
    if (threshold <=? c)%float then
      <[i + 2 := 255%Z]> (<[i + 1 := 255%Z]> (<[i + 0 := 255%Z]> d))
    else
      <[i + 2 := 0%Z]> (<[i + 1 := 0%Z]> (<[i + 0 := 0%Z]> d)) in
  Ok (<[i + 3 := 255%Z]> d).

Definition toBinaryImage (imageData : ImageData) (threshold : float)
    : result ImageData :=
  let dst := createImageData (width imageData) (height imageData) in
  let* d := forLoop (length (data imageData)) 0 (length (data imageData)) 4
              (binaryStep threshold (data imageData)) (data dst) in
  Ok {| width := width dst; height := height dst; data := d |}.

(** The pixel the binarizer writes for a decision. *)
Definition binaryPixel (isWhite : bool) : list (option Z) :=
  if isWhite then opaqueWhite else opaqueBlack.

(** After [q] iterations of the binarizer the array keeps its size and the
    pixels before [q] are written. *)
Definition binaryInv (threshold : float) (src : list Z) (n q : nat)
    (d : list Z) : Prop :=
  length d = 4 * n ∧
  ∀ q', q' < q →
    pixelBytes d (4 * q') = binaryPixel (threshold <=? luminance src (4 * q'))%float.

(** ** main.js: the images on the canvas *)

Module UI.

Definition SNAP_DISTANCE : Z := 3.

(** [class MyImage]; [width] and [height] are its getters, the size of the
    image it wraps. *)
Record MyImage : Type := mkMyImage {
  width : Z;
  height : Z;
  x : Z;
  y : Z;
  dragging : bool;
  lastX : Z;
  lastY : Z
}.

(** [new MyImage(image, x, y)] for an image [w] by [h]. *)
Definition newMyImage (w h x0 y0 : Z) : MyImage :=
  {| width := w; height := h; x := x0; y := y0;
     dragging := false; lastX := x0; lastY := y0 |}.

(** [MyImage.in] *)
Definition in_ (this : MyImage) (px py : Z) : bool :=
  (x this <=? px)%Z && (px <=? x this + width this)%Z &&
  (y this <=? py)%Z && (py <=? y this + height this)%Z.

(** The images [shareImage] returns: the two shares, loaded, at the origin
    and at half their size. *)
Definition sharedImages (src : ImageData) : list MyImage :=
  let w := (Z.of_nat (Vsss.width src) * 2)%Z in
  let h := (Z.of_nat (Vsss.height src) * 2)%Z in
  let offsetX := (w / 2)%Z in
  let offsetY := (h / 2)%Z in
  [ newMyImage w h (offsetX * 0)%Z (offsetY * 0)%Z;
    newMyImage w h (offsetX * 1)%Z (offsetY * 1)%Z ].

(** The events the handlers are registered for. *)
Inductive eventType : Type :=
| mousedown | mouseup | mousemove | touchstart | touchmove | touchend.

#[global] Instance eventType_eq_dec : EqDecision eventType.
Proof. solve_decision. Defined.

Record Event : Type := mkEvent {
  type : eventType;
  clientX : Z;
  clientY : Z;
  touches : list (Z * Z)
}.

Record Canvas : Type := mkCanvas {
  offsetLeft : Z;
  offsetTop : Z
}.

(** [mouseX] and [mouseY], read from the first touch for the event type
    [touch] and from the event otherwise. *)
Definition pointer (touch : eventType) (canvas : Canvas) (e : Event)
    : result (Z * Z) :=
  if decide (type e = touch) then
    match touches e with
    | t :: _ => Ok (t.1 - offsetLeft canvas, t.2 - offsetTop canvas)%Z
    | [] => TypeError
    end
  else Ok (clientX e - offsetLeft canvas, clientY e - offsetTop canvas)%Z.

(** [img.dragging = true; img.lastX = mouseX; img.lastY = mouseY] *)
Definition grab (img : MyImage) (mouseX mouseY : Z) : MyImage :=
  {| width := width img; height := height img; x := x img; y := y img;
     dragging := true; lastX := mouseX; lastY := mouseY |}.

(** The loop of [handleMouseDown] over the indices of the reversed copy:
    the first image under the pointer is grabbed and the loop ends. *)
Fixpoint downLoop (idxs : list nat) (mouseX mouseY : Z)
    (images : list MyImage) : list MyImage :=
  match idxs with
  | [] => images
  | i :: rest =>
      match images !! i with
      | Some img =>
          if in_ img mouseX mouseY then <[i := grab img mouseX mouseY]> images
          else downLoop rest mouseX mouseY images
      | None => downLoop rest mouseX mouseY images
      end
  end.

Definition handleMouseDown (canvas : Canvas) (e : Event)
    (images : list MyImage) : result (list MyImage) :=
  let* m := pointer touchstart canvas e in
  Ok (downLoop (reverse (seq 0 (length images))) m.1 m.2 images).

Definition release (img : MyImage) : MyImage :=
  {| width := width img; height := height img; x := x img; y := y img;
     dragging := false; lastX := lastX img; lastY := lastY img |}.

Definition handleMouseUp (images : list MyImage) : list MyImage :=
  map release images.

(** The two tests of the snapping loop against the image [img2]. *)
Definition snap (img img2 : MyImage) : MyImage :=
  let img :=
    if (Z.abs (x img - x img2) <? SNAP_DISTANCE)%Z then
      {| width := width img; height := height img; x := x img2; y := y img;
         dragging := dragging img; lastX := lastX img; lastY := lastY img |}
    else img in
  if (Z.abs (y img - y img2) <? SNAP_DISTANCE)%Z then
    {| width := width img; height := height img; x := x img; y := y img2;
       dragging := dragging img; lastX := lastX img; lastY := lastY img |}
  else img.

(** [for (let img2 of this.images)] for the image at index [i]. *)
Definition snapLoop (i : nat) (images : list MyImage) (img : MyImage) : MyImage :=
  foldl (fun img j =>
           match images !! j with
           | Some img2 => if decide (j = i) then img else snap img img2
           | None => img
           end)
        img (seq 0 (length images)).

(** [img.x += dx; img.y += dy; img.lastX = mouseX; img.lastY = mouseY] *)
Definition drag (img : MyImage) (mouseX mouseY : Z) : MyImage :=
  let dx := (mouseX - lastX img)%Z in
  let dy := (mouseY - lastY img)%Z in
  {| width := width img; height := height img;
     x := (x img + dx)%Z; y := (y img + dy)%Z;
     dragging := dragging img; lastX := mouseX; lastY := mouseY |}.

(** The body of the loop of [handleMouseMove] for the image at index [i]. *)
Definition moveStep (mouseX mouseY : Z) (images : list MyImage) (i : nat)
    : list MyImage :=
  match images !! i with
  | Some img =>
      if dragging img then
        <[i := snapLoop i images (drag img mouseX mouseY)]> images
      else images
  | None => images
  end.

Definition handleMouseMove (canvas : Canvas) (e : Event)
    (images : list MyImage) : result (list MyImage) :=
  let* m := pointer touchmove canvas e in
  Ok (foldl (moveStep m.1 m.2) images (seq 0 (length images))).

(** Where an image is. *)
Definition position (img : MyImage) : Z * Z := (x img, y img).

(** No image but the one at index [i] is being dragged. *)
Definition onlyDragged (i : nat) (images : list MyImage) : Prop :=
  ∀ j img, j ≠ i → images !! j = Some img → dragging img = false.

(** The image [img2] is out of snapping reach of [img] on both axes. *)
Definition outOfReach (img img2 : MyImage) : Prop :=
  (SNAP_DISTANCE <= Z.abs (x img - x img2))%Z ∧
  (SNAP_DISTANCE <= Z.abs (y img - y img2))%Z.

End UI.

(** ** Reading the shares back *)

Definition mapResult {A B : Type} (f : A → B) (r : result A) : result B :=
  let* a := r in Ok (f a).

(** What the first share sees of the encoder state. *)
Definition share1View (s : state) : nat * list Z := (calls s, data1 s).

(** Stacking the two shares and looking at the block of source pixel
    [(x, y)]: it reads as black when all four sub-pixels are black. *)
Definition stackedBlock (out1 out2 : ImageData) (x y : nat) : list colour :=
  overlayBlocks (blockColours out1 x y) (blockColours out2 x y).

Definition decodePixel (out1 out2 : ImageData) (x y : nat) : bool :=
  bool_decide (stackedBlock out1 out2 x y = [B; B; B; B]).

(** The sub-pixel of a pattern at column [dx] and row [dy] of the block. *)
Definition patternPixel (p : list Z) (dx dy : nat) : list (option Z) :=
  pixelBytes p (4 * (2 * dy + dx)).

(** ** Tactics *)

Ltac lookup_inserts :=
  repeat first
    [ rewrite list_lookup_insert_ne by lia
    | rewrite list_lookup_insert_eq by (rewrite ?length_insert; lia) ].

Ltac below_eight k :=
  destruct k as [|[|[|[|[|[|[|[|k]]]]]]]]; [.. | lia].

Ltac sixteen p H :=
  do 16 (destruct p as [|? p]; [discriminate H |]);
  destruct p; [clear H | discriminate H].

Ltac unit_rng := intros ?; split; vm_compute; [discriminate | reflexivity].

(** ** The helpers *)

Section Helpers.

Lemma randInt_range (u : Q) (max : nat) :
  unitDraw u → 0 < max → (0 <= randInt u max < Z.of_nat max)%Z.
Proof.
  intros [H0 H1] Hmax. unfold randInt.
  assert (Hm : (0 < inject_Z (Z.of_nat max))%Q).
  { change 0%Q with (inject_Z 0). rewrite <- Zlt_Qlt. lia. }
  split.
  - change 0%Z with (Qfloor (inject_Z 0)) at 1.
    apply Qfloor_resp_le. change (inject_Z 0) with 0%Q.
    apply Qmult_le_0_compat; [exact H0 | apply Qlt_le_weak, Hm].
  - rewrite Zlt_Qlt.
    apply Qle_lt_trans with (u * inject_Z (Z.of_nat max))%Q; [apply Qfloor_le |].
    rewrite <- (Qmult_1_l (inject_Z (Z.of_nat max))) at 2.
    apply Qmult_lt_compat_r; assumption.
Qed.

Lemma index_Ok {A : Type} (l : list A) (i : Z) :
  (0 <= i < Z.of_nat (length l))%Z →
  ∃ a, l !! Z.to_nat i = Some a ∧ index l i = Ok a.
Proof.
  intros Hi. unfold index.
  destruct (Z.ltb_spec i 0); [lia |].
  destruct (lookup_lt_is_Some_2 l (Z.to_nat i)) as [a Ha]; [lia |].
  exists a. by rewrite Ha.
Qed.

Lemma writeBlack_rows (j w : nat) (p1 p2 d1 d2 : list Z) :
  writeBlack j w p1 p2 (d1, d2) = (writeRows j w p1 d1, writeRows j w p2 d2).
Proof.
  unfold writeBlack, writeRows. generalize (seq 0 8). intros ks.
  revert d1 d2. induction ks as [|k ks IH]; intros d1 d2; [done |].
  cbn [foldl]. apply IH.
Qed.

Lemma writeWhite_rows (j w : nat) (p d1 d2 : list Z) :
  writeWhite j w p (d1, d2) = (writeRows j w p d1, writeRows j w p d2).
Proof.
  unfold writeWhite, writeRows. generalize (seq 0 8). intros ks.
  revert d1 d2. induction ks as [|k ks IH]; intros d1 d2; [done |].
  cbn [foldl]. apply IH.
Qed.

Lemma writeRows_length (j w : nat) (p d : list Z) :
  length (writeRows j w p d) = length d.
Proof.
  unfold writeRows. generalize (seq 0 8). intros ks. revert d.
  induction ks as [|k ks IH]; intros d; [done |].
  cbn [foldl]. by rewrite IH, !length_insert.
Qed.

Lemma writeRows_other (j w : nat) (p d : list Z) (n : nat) :
  (∀ k, k < 8 → n ≠ j + k ∧ n ≠ j + w * 4 + k) →
  writeRows j w p d !! n = d !! n.
Proof.
  intros Hn. unfold writeRows. cbn [seq foldl].
  pose proof (Hn 0). pose proof (Hn 1). pose proof (Hn 2). pose proof (Hn 3).
  pose proof (Hn 4). pose proof (Hn 5). pose proof (Hn 6). pose proof (Hn 7).
  lookup_inserts. done.
Qed.

Lemma writeRows_top (j w : nat) (p d : list Z) (k : nat) :
  k < 8 → 8 ≤ w * 4 → j + k < length d →
  writeRows j w p d !! (j + k) = Some (elem p k).
Proof.
  intros Hk Hw Hlen. unfold writeRows. cbn [seq foldl].
  below_eight k; lookup_inserts; done.
Qed.

Lemma writeRows_bottom (j w : nat) (p d : list Z) (k : nat) :
  k < 8 → 8 ≤ w * 4 → j + w * 4 + k < length d →
  writeRows j w p d !! (j + w * 4 + k) = Some (elem p (k + 8)).
Proof.
  intros Hk Hw Hlen. unfold writeRows. cbn [seq foldl].
  below_eight k; lookup_inserts; done.
Qed.

Lemma pixelStep_rows (rng : nat → Q) (src : list Z) (sw w i : nat) (s : state) :
  pixelStep rng src sw w i s =
  let* pp := chosen rng src (calls s) i in
  Ok {| calls := S (calls s);
        data1 := writeRows (blockOffset sw w i) w (fst pp) (data1 s);
        data2 := writeRows (blockOffset sw w i) w (snd pp) (data2 s) |}.
Proof.
  unfold pixelStep, chosen, blackBranch, whiteBranch.
  destruct (isBlack src i).
  - destruct (index blackPairs _) as [[a b]| |]; cbn [bind fst snd]; [| done | done].
    destruct (index patterns a) as [p1| |]; cbn [bind fst snd]; [| done | done].
    destruct (index patterns b) as [p2| |]; cbn [bind fst snd]; [| done | done].
    by rewrite writeBlack_rows.
  - destruct (index patterns _) as [p| |]; cbn [bind fst snd]; [| done | done].
    by rewrite writeWhite_rows.
Qed.

(** The draw as a number below six. *)
Lemma randInt_six (u : Q) :
  unitDraw u → ∃ r, r < 6 ∧ randInt u 6 = Z.of_nat r.
Proof.
  intros Hu. destruct (randInt_range u 6 Hu) as [H0 H6]; [lia |].
  exists (Z.to_nat (randInt u 6)). split; lia.
Qed.

Lemma chosen_total (rng : nat → Q) (src : list Z) (c i : nat) :
  unitDraw (rng c) → ∃ p1 p2, chosen rng src c i = Ok (p1, p2).
Proof.
  intros Hu. destruct (randInt_six _ Hu) as (r & Hr & Er).
  unfold chosen. change (length blackPairs) with 6. change (length patterns) with 6.
  rewrite Er.
  destruct (isBlack src i);
    (destruct r as [|[|[|[|[|[|r]]]]]]; [.. | lia]); cbn; eauto.
Qed.

(** Block offsets in the grid of the source. *)
Lemma blockOffset_grid (sw q : nat) :
  0 < sw →
  blockOffset sw (sw * 2) (4 * q) = 8 * sw * (2 * (q / sw)) + 8 * (q mod sw).
Proof.
  intros Hsw. unfold blockOffset.
  replace (sw * 4) with (4 * sw) by lia.
  rewrite Nat.Div0.div_mul_cancel_l by lia.
  pose proof (Nat.div_mod_eq q sw). nia.
Qed.

Lemma cell_unique (sw y x r k y' x' r' k' : nat) :
  x < sw → x' < sw → r < 2 → r' < 2 → k < 8 → k' < 8 →
  8 * sw * (2 * y + r) + (8 * x + k) = 8 * sw * (2 * y' + r') + (8 * x' + k') →
  y = y' ∧ x = x' ∧ r = r' ∧ k = k'.
Proof.
  intros Hx Hx' Hr Hr' Hk Hk' E.
  apply Nat.div_mod_unique in E; lia.
Qed.

End Helpers.

(** ** The loop over the source pixels *)

Section Loop.

Variable rng : nat → Q.
Variable src : ImageData.
Hypothesis rng_unit : unitRng rng.
Hypothesis src_wf : wfImage src.

Let sw := width src.
Let sh := height src.
Let w := width src * 2.
Let off (q : nat) := blockOffset sw w (4 * q).

Lemma off_bounds (q r k : nat) :
  q < sw * sh → r < 2 → k < 8 → off q + r * (w * 4) + k < 16 * sw * sh.
Proof.
  intros Hq Hr Hk. assert (Hsw : 0 < sw) by nia.
  unfold off, w. fold sw. rewrite blockOffset_grid by done.
  pose proof (Nat.mod_upper_bound q sw ltac:(lia)).
  assert (q / sw < sh) by (apply Nat.Div0.div_lt_upper_bound; nia).
  nia.
Qed.

Lemma off_disjoint (q q' r r' k k' : nat) :
  0 < sw → q ≠ q' → r < 2 → r' < 2 → k < 8 → k' < 8 →
  off q + r * (w * 4) + k ≠ off q' + r' * (w * 4) + k'.
Proof.
  intros Hsw Hne Hr Hr' Hk Hk' E. apply Hne.
  unfold off, w in E. fold sw in E. rewrite !blockOffset_grid in E by done.
  pose proof (Nat.mod_upper_bound q sw ltac:(lia)).
  pose proof (Nat.mod_upper_bound q' sw ltac:(lia)).
  destruct (cell_unique sw (q / sw) (q mod sw) r k (q' / sw) (q' mod sw) r' k')
    as (Ey & Ex & _); [done.. | lia |].
  rewrite (Nat.div_mod_eq q sw), (Nat.div_mod_eq q' sw). congruence.
Qed.

Lemma pixelStep_inv (q : nat) (s : state) :
  q < sw * sh → loopInv rng src q s →
  ∃ s', pixelStep rng (data src) sw w (4 * q) s = Ok s' ∧ loopInv rng src (S q) s'.
Proof.
  intros Hq (Hc & Hl1 & Hl2 & Hdone). assert (Hsw : 0 < sw) by nia.
  assert (Hw : 8 ≤ w * 4) by (unfold w; fold sw; lia).
  rewrite pixelStep_rows, Hc.
  destruct (chosen_total rng (data src) q (4 * q) (rng_unit q)) as (p1 & p2 & Ech).
  rewrite Ech. cbn [bind fst snd]. eexists. split; [reflexivity |].
  fold (off q). split; [cbn; lia |]. cbn [calls data1 data2].
  rewrite !writeRows_length. split; [done |]. split; [done |].
  intros q' Hq'. destruct (decide (q' = q)) as [-> | Hne].
  - exists p1, p2. split; [done |]. intros k Hk.
    pose proof (off_bounds q 0 k Hq ltac:(lia) Hk).
    pose proof (off_bounds q 1 k Hq ltac:(lia) Hk).
    repeat split.
    + apply writeRows_top; [done | done | lia].
    + apply writeRows_bottom; [done | done | lia].
    + apply writeRows_top; [done | done | lia].
    + apply writeRows_bottom; [done | done | lia].
  - destruct (Hdone q' ltac:(lia)) as (q1 & q2 & Eq' & Hold).
    exists q1, q2. split; [done |]. intros k Hk.
    destruct (Hold k Hk) as (H1 & H2 & H3 & H4).
    assert (Hfar : ∀ r, r < 2 → ∀ k', k' < 8 →
              off q' + r * (w * 4) + k ≠ off q + k' ∧
              off q' + r * (w * 4) + k ≠ off q + w * 4 + k').
    { intros r Hr k' Hk'. split.
      - pose proof (off_disjoint q' q r 0 k k' Hsw Hne Hr ltac:(lia) Hk Hk'). lia.
      - pose proof (off_disjoint q' q r 1 k k' Hsw Hne Hr ltac:(lia) Hk Hk'). lia. }
    unfold off, w, sw in Hfar |- *.
    repeat split.
    + rewrite writeRows_other; [done |]. intros k' Hk'.
      pose proof (Hfar 0 ltac:(lia) k' Hk'). lia.
    + rewrite writeRows_other; [done |]. intros k' Hk'.
      pose proof (Hfar 1 ltac:(lia) k' Hk'). lia.
    + rewrite writeRows_other; [done |]. intros k' Hk'.
      pose proof (Hfar 0 ltac:(lia) k' Hk'). lia.
    + rewrite writeRows_other; [done |]. intros k' Hk'.
      pose proof (Hfar 1 ltac:(lia) k' Hk'). lia.
Qed.

Lemma forLoop_inv (fuel q : nat) (s : state) :
  q ≤ sw * sh → sw * sh - q ≤ fuel → loopInv rng src q s →
  ∃ s', forLoop fuel (4 * q) (4 * (sw * sh)) 4
          (pixelStep rng (data src) sw w) s = Ok s' ∧
        loopInv rng src (sw * sh) s'.
Proof.
  revert q s. induction fuel as [|fuel IH]; intros q s Hq Hfuel Hinv; cbn [forLoop].
  - destruct (Nat.ltb_spec (4 * q) (4 * (sw * sh))); [lia |].
    assert (q = sw * sh) as <- by lia. eauto.
  - destruct (Nat.ltb_spec (4 * q) (4 * (sw * sh))) as [Hlt | Hge].
    + destruct (pixelStep_inv q s ltac:(lia) Hinv) as (s1 & E1 & Hinv1).
      rewrite E1. cbn [bind].
      replace (4 * q + 4) with (4 * S q) by lia.
      apply IH; [lia | lia | done].
    + assert (q = sw * sh) as <- by lia. eauto.
Qed.

Lemma shareLoop_inv :
  ∃ s, shareLoop rng src = Ok s ∧ loopInv rng src (sw * sh) s.
Proof.
  unfold shareLoop. rewrite src_wf. fold sw sh w.
  replace (4 * sw * sh) with (4 * (sw * sh)) by lia.
  cbn [createImageData data].
  set (s0 := {| calls := 0 |}).
  assert (H0 : loopInv rng src 0 s0).
  { split; [done |]. cbn [data1 data2 s0]. rewrite !length_replicate.
    unfold w. fold sw sh. repeat split; [lia | lia |]. intros q' Hq'. lia. }
  apply (forLoop_inv (4 * (sw * sh)) 0 s0 ltac:(lia) ltac:(lia)) in H0.
  exact H0.
Qed.

End Loop.

(** ** The encoder on the grid of the source *)

Lemma index_inv {A : Type} (l : list A) (i : Z) (a : A) :
  index l i = Ok a → (0 <= i)%Z ∧ l !! Z.to_nat i = Some a.
Proof.
  unfold index. destruct (Z.ltb_spec i 0); [done |].
  destruct (l !! Z.to_nat i); [| done]. intros [= ->]. done.
Qed.

Lemma index_elem_of {A : Type} (l : list A) (i : Z) (a : A) :
  index l i = Ok a → a ∈ l.
Proof. intros [_ H]%index_inv. by eapply list_elem_of_lookup_2. Qed.

Lemma chosen_black (rng : nat → Q) (src : list Z) (c i : nat) (p1 p2 : list Z) :
  isBlack src i = true → chosen rng src c i = Ok (p1, p2) →
  ∃ a b, index blackPairs (randInt (rng c) 6) = Ok (a, b) ∧
         index patterns a = Ok p1 ∧ index patterns b = Ok p2.
Proof.
  unfold chosen. intros ->. change (length blackPairs) with 6.
  destruct (index blackPairs _) as [[a b]| |]; cbn [bind fst snd]; [| done | done].
  destruct (index patterns a) as [q1| |] eqn:E1; cbn [bind]; [| done | done].
  destruct (index patterns b) as [q2| |] eqn:E2; cbn [bind]; [| done | done].
  intros [= -> ->]. by exists a, b.
Qed.

Lemma chosen_white (rng : nat → Q) (src : list Z) (c i : nat) (p1 p2 : list Z) :
  isBlack src i = false → chosen rng src c i = Ok (p1, p2) →
  index patterns (randInt (rng c) 6) = Ok p1 ∧ p2 = p1.
Proof.
  unfold chosen. intros ->. change (length patterns) with 6.
  destruct (index patterns _) as [q| |]; cbn [bind]; [| done | done].
  intros [= -> ->]. done.
Qed.

Lemma patterns_sixteen : Forall (fun p => length p = 16) patterns.
Proof. unfold patterns. repeat constructor. Qed.

Lemma patterns_length (p : list Z) : p ∈ patterns → length p = 16.
Proof. revert p. apply Forall_forall, patterns_sixteen. Qed.

Lemma chosen_length (rng : nat → Q) (src : list Z) (c i : nat) (p1 p2 : list Z) :
  chosen rng src c i = Ok (p1, p2) → length p1 = 16 ∧ length p2 = 16.
Proof.
  intros E. destruct (isBlack src i) eqn:Eb.
  - destruct (chosen_black _ _ _ _ _ _ Eb E) as (a & b & _ & H1 & H2).
    split; eapply patterns_length, index_elem_of; eassumption.
  - destruct (chosen_white _ _ _ _ _ _ Eb E) as (H1 & ->).
    split; eapply patterns_length, index_elem_of; eassumption.
Qed.

Lemma rows_blockBytes (d : list Z) (w x y : nat) (p : list Z) :
  length p = 16 →
  (∀ k, k < 8 →
     d !! (pixelOffset w (2 * x) (2 * y) + k) = Some (elem p k) ∧
     d !! (pixelOffset w (2 * x) (2 * y + 1) + k) = Some (elem p (k + 8))) →
  ∀ h, blockBytes (mkImageData w h d) x y = Some <$> p.
Proof.
  intros Hlen Hrows h. unfold blockBytes. cbn [width data seq map app].
  destruct (Hrows 0) as [? ?]; [lia |]. destruct (Hrows 1) as [? ?]; [lia |].
  destruct (Hrows 2) as [? ?]; [lia |]. destruct (Hrows 3) as [? ?]; [lia |].
  destruct (Hrows 4) as [? ?]; [lia |]. destruct (Hrows 5) as [? ?]; [lia |].
  destruct (Hrows 6) as [? ?]; [lia |]. destruct (Hrows 7) as [? ?]; [lia |].
  clear Hrows. sixteen p Hlen. cbn in *.
  repeat (apply (f_equal2 cons); [assumption |]). done.
Qed.

Lemma blockOffset_pixel (sw x y : nat) :
  x < sw →
  blockOffset sw (sw * 2) (pixelOffset sw x y) = pixelOffset (sw * 2) (2 * x) (2 * y).
Proof.
  intros Hx. unfold pixelOffset at 1. rewrite blockOffset_grid by lia.
  rewrite <- (Nat.div_unique (y * sw + x) sw y x) by lia.
  rewrite <- (Nat.mod_unique (y * sw + x) sw y x) by lia.
  unfold pixelOffset. lia.
Qed.

(** The encoder returns, makes one draw a source pixel, and leaves in the
    block of every source pixel the patterns chosen for it. *)
Lemma shareImage_blocks (rng : nat → Q) (src : ImageData) :
  unitRng rng → wfImage src →
  ∃ s,
    shareLoop rng src = Ok s ∧
    calls s = width src * height src ∧
    length (data1 s) = 4 * (width src * 2) * (height src * 2) ∧
    length (data2 s) = 4 * (width src * 2) * (height src * 2) ∧
    shareImage rng src =
      Ok (mkImageData (width src * 2) (height src * 2) (data1 s),
          mkImageData (width src * 2) (height src * 2) (data2 s)) ∧
    ∀ x y, x < width src → y < height src →
      ∃ p1 p2,
        chosen rng (data src) (y * width src + x)
               (pixelOffset (width src) x y) = Ok (p1, p2) ∧
        blockBytes (mkImageData (width src * 2) (height src * 2) (data1 s)) x y
          = Some <$> p1 ∧
        blockBytes (mkImageData (width src * 2) (height src * 2) (data2 s)) x y
          = Some <$> p2.
Proof.
  intros Hrng Hwf.
  destruct (shareLoop_inv rng src Hrng Hwf) as (s & Es & Hc & Hl1 & Hl2 & Hdone).
  exists s. split; [done |]. split; [done |].
  split; [lia |]. split; [lia |].
  split; [unfold shareImage; by rewrite Es |].
  intros x y Hx Hy.
  destruct (Hdone (y * width src + x)) as (p1 & p2 & Ech & Hrows); [nia |].
  fold (pixelOffset (width src) x y) in Ech, Hrows.
  rewrite blockOffset_pixel in Hrows by done.
  destruct (chosen_length _ _ _ _ _ _ Ech) as [Hp1 Hp2].
  assert (Hdown : pixelOffset (width src * 2) (2 * x) (2 * y) + width src * 2 * 4
                  = pixelOffset (width src * 2) (2 * x) (2 * y + 1))
    by (unfold pixelOffset; lia).
  rewrite Hdown in Hrows.
  exists p1, p2. split; [done |].
  split; apply rows_blockBytes; try done; intros k Hk;
    destruct (Hrows k Hk) as (H1 & H2 & H3 & H4); done.
Qed.

(** ** Blocks of a share and patterns *)

Lemma blockPixels_pattern (img : ImageData) (x y : nat) (p : list Z) :
  length p = 16 → blockBytes img x y = Some <$> p →
  blockPixels img x y = patternPixels p.
Proof.
  intros Hlen. sixteen p Hlen.
  unfold blockBytes, blockPixels, patternPixels, pixelBytes.
  cbn [seq map app fmap list_fmap].
  replace (pixelOffset (width img) (2 * x + 1) (2 * y))
    with (pixelOffset (width img) (2 * x) (2 * y) + 4) by (unfold pixelOffset; lia).
  replace (pixelOffset (width img) (2 * x + 1) (2 * y + 1))
    with (pixelOffset (width img) (2 * x) (2 * y + 1) + 4) by (unfold pixelOffset; lia).
  rewrite <- !Nat.add_assoc. cbn [Nat.add Nat.mul].
  intros [= -> -> -> -> -> -> -> -> -> -> -> -> -> -> -> ->]. done.
Qed.

Lemma blockColours_pattern (img : ImageData) (x y : nat) (p : list Z) :
  length p = 16 → blockBytes img x y = Some <$> p →
  blockColours img x y = patternColours p.
Proof.
  intros Hlen. sixteen p Hlen.
  unfold blockBytes, blockColours, patternColours, colourAt, isBlack.
  cbn [seq map app fmap list_fmap].
  replace (pixelOffset (width img) (2 * x + 1) (2 * y))
    with (pixelOffset (width img) (2 * x) (2 * y) + 4) by (unfold pixelOffset; lia).
  replace (pixelOffset (width img) (2 * x + 1) (2 * y + 1))
    with (pixelOffset (width img) (2 * x) (2 * y + 1) + 4) by (unfold pixelOffset; lia).
  rewrite <- !Nat.add_assoc. cbn [Nat.add Nat.mul].
  intros [= -> -> -> -> -> -> -> -> -> -> -> -> -> -> -> ->]. done.
Qed.

(** ** The encoder at one source pixel *)

Lemma share_black (rng : nat → Q) (src : ImageData) (x y : nat) :
  unitRng rng → wfImage src → x < width src → y < height src →
  isBlack (data src) (pixelOffset (width src) x y) = true →
  ∃ out1 out2 a b p1 p2,
    shareImage rng src = Ok (out1, out2) ∧
    index blackPairs (randInt (rng (y * width src + x)) 6) = Ok (a, b) ∧
    index patterns a = Ok p1 ∧ index patterns b = Ok p2 ∧
    blockBytes out1 x y = Some <$> p1 ∧ blockBytes out2 x y = Some <$> p2.
Proof.
  intros Hrng Hwf Hx Hy Hb.
  destruct (shareImage_blocks rng src Hrng Hwf) as (s & _ & _ & _ & _ & E & Hblk).
  destruct (Hblk x y Hx Hy) as (p1 & p2 & Ech & H1 & H2).
  destruct (chosen_black _ _ _ _ _ _ Hb Ech) as (a & b & Ep & Ea & Eb).
  do 2 eexists. exists a, b, p1, p2. by rewrite E.
Qed.

Lemma share_white (rng : nat → Q) (src : ImageData) (x y : nat) :
  unitRng rng → wfImage src → x < width src → y < height src →
  isBlack (data src) (pixelOffset (width src) x y) = false →
  ∃ out1 out2 p,
    shareImage rng src = Ok (out1, out2) ∧
    index patterns (randInt (rng (y * width src + x)) 6) = Ok p ∧
    blockBytes out1 x y = Some <$> p ∧ blockBytes out2 x y = Some <$> p.
Proof.
  intros Hrng Hwf Hx Hy Hb.
  destruct (shareImage_blocks rng src Hrng Hwf) as (s & _ & _ & _ & _ & E & Hblk).
  destruct (Hblk x y Hx Hy) as (p1 & p2 & Ech & H1 & H2).
  destruct (chosen_white _ _ _ _ _ _ Hb Ech) as (Ep & ->).
  do 2 eexists. exists p1. by rewrite E.
Qed.

(** ** The pattern table and the pairs *)

Lemma patterns_subpixels (p : list Z) :
  p ∈ patterns → Forall codeSubPixel (patternPixels p).
Proof.
  revert p. apply Forall_forall. unfold patterns, codeSubPixel.
  repeat (apply List.Forall_cons;
          [repeat (apply List.Forall_cons; [by (left + right) |]); apply List.Forall_nil |]).
  apply List.Forall_nil.
Qed.

Lemma patterns_two_black (p : list Z) :
  p ∈ patterns →
  countBlack (patternColours p) = 2 ∧ countWhite (patternColours p) = 2.
Proof.
  revert p. apply Forall_forall. unfold patterns.
  repeat (apply List.Forall_cons; [by vm_compute |]). apply List.Forall_nil.
Qed.

Lemma blackPairs_complementary : Forall complementary blackPairs.
Proof.
  unfold blackPairs.
  repeat (apply List.Forall_cons;
          [intros p1 p2 [= <-] [= <-]; by vm_compute |]).
  apply List.Forall_nil.
Qed.

Lemma blackPairs_complement (a b : Z) (p1 p2 : list Z) :
  (a, b) ∈ blackPairs → index patterns a = Ok p1 → index patterns b = Ok p2 →
  patternColours p2 = map invert (patternColours p1) ∧
  overlayBlocks (patternColours p1) (patternColours p2) = [B; B; B; B] ∧
  p1 ≠ p2.
Proof.
  intros Hin. exact (proj1 (Forall_forall _ _) blackPairs_complementary (a, b) Hin p1 p2).
Qed.

(** ** The claims about the table *)

(** C2, as the specification states it, fails: pattern 0 of the encoder is
    white, white, black, black, where the table of section 4.1 has white,
    white, white, black; and no reading of the bytes of a sub-pixel as a
    colour turns the encoder's table into that one, since the two bottom
    sub-pixels of pattern 0 hold the same bytes. *)
Lemma C2_spec_table_differs :
  patternColours <$> patterns !! 0 = Some [W; W; B; B] ∧
  specPatternTable !! 0 = Some [W; W; W; B] ∧
  map patternColours patterns ≠ specPatternTable ∧
  ¬ ∃ f : list (option Z) → colour,
      map (fun p => map f (patternPixels p)) patterns = specPatternTable.
Proof.
  split; [reflexivity |]. split; [reflexivity |]. split; [by vm_compute |].
  intros [f E]. cbv in E. congruence.
Qed.

(** C2, amended: the pattern table of the encoder holds exactly six 2x2
    patterns of 16 bytes, which read row-major are 0 = W,W,B,B;
    1 = B,B,W,W; 2 = W,B,W,B; 3 = B,W,B,W; 4 = W,B,B,W; 5 = B,W,W,B
    (patterns 3, 4 and 5 are those of the specification's table). *)
Theorem C2_pattern_table :
  length patterns = 6 ∧
  Forall (fun p => length p = 16) patterns ∧
  map patternColours patterns =
    [ [W; W; B; B];
      [B; B; W; W];
      [W; B; W; B];
      [B; W; B; W];
      [W; B; B; W];
      [B; W; W; B] ] ∧
  drop 3 (map patternColours patterns) = drop 3 specPatternTable.
Proof.
  split; [reflexivity |]. split; [apply patterns_sixteen |].
  split; reflexivity.
Qed.

(** C3, as the specification states it, fails: for a 1x1 white source and
    the draw 0 the encoder stores pattern 0, whose top-left sub-pixel is
    white and holds the bytes 0, 0, 0, 0: its alpha channel is 0, not 255,
    and its colour channels are 0, not 255. *)
Lemma C3_white_subpixel_transparent :
  ∃ out1 out2,
    shareImage (constRng 0) (mkSrc 1 1 [white]) = Ok (out1, out2) ∧
    colourAt (data out1) (pixelOffset (width out1) 0 0) = W ∧
    pixelBytes (data out1) (pixelOffset (width out1) 0 0) = transparent ∧
    data out1 !! (pixelOffset (width out1) 0 0 + 3) ≠ Some 255%Z ∧
    ¬ Forall specSubPixel (blockPixels out1 0 0).
Proof.
  do 2 eexists. split; [vm_compute; reflexivity |].
  split; [reflexivity |]. split; [reflexivity |]. split; [by vm_compute |].
  intros H. apply Forall_cons_1 in H as [[H | H] _]; vm_compute in H; discriminate H.
Qed.

(** ** The claims about the blocks of the shares *)

(** C3, amended: every pattern is 16 bytes, and every sub-pixel the encoder
    writes into either share has its R, G and B channels at 0; its alpha
    channel is 255 when the sub-pixel is black and 0 (transparent) when it
    is white. *)
Theorem C3_subpixel_bytes (rng : nat → Q) (src : ImageData) (x y : nat) :
  unitRng rng → wfImage src → x < width src → y < height src →
  Forall (fun p => length p = 16) patterns ∧
  ∃ out1 out2,
    shareImage rng src = Ok (out1, out2) ∧
    Forall codeSubPixel (blockPixels out1 x y) ∧
    Forall codeSubPixel (blockPixels out2 x y) ∧
    blockColours out1 x y =
      map (fun px => if decide (px = opaqueBlack) then B else W)
          (blockPixels out1 x y) ∧
    blockColours out2 x y =
      map (fun px => if decide (px = opaqueBlack) then B else W)
          (blockPixels out2 x y).
Proof.
  intros Hrng Hwf Hx Hy. split; [apply patterns_sixteen |].
  destruct (shareImage_blocks rng src Hrng Hwf) as (s & _ & _ & _ & _ & E & Hblk).
  destruct (Hblk x y Hx Hy) as (p1 & p2 & Ech & H1 & H2).
  destruct (chosen_length _ _ _ _ _ _ Ech) as [L1 L2].
  assert (Hin : p1 ∈ patterns ∧ p2 ∈ patterns).
  { destruct (isBlack (data src) (pixelOffset (width src) x y)) eqn:Eb.
    - destruct (chosen_black _ _ _ _ _ _ Eb Ech) as (a & b & _ & Ea & Eb').
      split; eapply index_elem_of; eassumption.
    - destruct (chosen_white _ _ _ _ _ _ Eb Ech) as (Ep & ->).
      split; eapply index_elem_of; eassumption. }
  destruct Hin as [In1 In2].
  do 2 eexists. split; [exact E |].
  rewrite (blockColours_pattern _ x y p1 L1 H1), (blockColours_pattern _ x y p2 L2 H2).
  rewrite (blockPixels_pattern _ x y p1 L1 H1), (blockPixels_pattern _ x y p2 L2 H2).
  split; [by apply patterns_subpixels |]. split; [by apply patterns_subpixels |].
  clear -In1 In2. revert p1 p2 In1 In2.
  assert (Hall : Forall (fun p => patternColours p =
            map (fun px => if decide (px = opaqueBlack) then B else W)
                (patternPixels p)) patterns).
  { unfold patterns. repeat (apply List.Forall_cons; [by vm_compute |]).
    apply List.Forall_nil. }
  intros p1 p2 In1 In2. split; by apply (proj1 (Forall_forall _ _) Hall).
Qed.

Lemma C3_subpixel_bytes_witness :
  Forall (fun p => length p = 16) patterns ∧
  ∃ out1 out2,
    shareImage halfRng src21 = Ok (out1, out2) ∧
    Forall codeSubPixel (blockPixels out1 1 0) ∧
    Forall codeSubPixel (blockPixels out2 1 0) ∧
    blockColours out1 1 0 =
      map (fun px => if decide (px = opaqueBlack) then B else W)
          (blockPixels out1 1 0) ∧
    blockColours out2 1 0 =
      map (fun px => if decide (px = opaqueBlack) then B else W)
          (blockPixels out2 1 0).
Proof.
  apply (C3_subpixel_bytes halfRng src21 1 0);
    [unit_rng | reflexivity | vm_compute; lia | vm_compute; lia].
Defined.

(** C1: the pairs are (0,1), (1,0), (2,3), (3,2), (4,5), (5,4); for each of
    them the black-dominant overlay of the two patterns is black at all four
    sub-pixels; so for a black source pixel, whatever is drawn, overlaying
    its blocks in the two shares gives an all-black block. *)
Theorem C1_black_pixel_overlay (rng : nat → Q) (src : ImageData) (x y : nat) :
  unitRng rng → wfImage src → x < width src → y < height src →
  isBlack (data src) (pixelOffset (width src) x y) = true →
  blackPairs = [ (0, 1); (1, 0); (2, 3); (3, 2); (4, 5); (5, 4) ]%Z ∧
  Forall (fun ab => ∃ p1 p2,
            index patterns ab.1 = Ok p1 ∧ index patterns ab.2 = Ok p2 ∧
            overlayBlocks (patternColours p1) (patternColours p2) = [B; B; B; B])
         blackPairs ∧
  ∃ out1 out2,
    shareImage rng src = Ok (out1, out2) ∧
    overlayBlocks (blockColours out1 x y) (blockColours out2 x y) = [B; B; B; B].
Proof.
  intros Hrng Hwf Hx Hy Hb. split; [reflexivity |]. split.
  - unfold blackPairs.
    repeat (apply List.Forall_cons;
            [do 2 eexists; split; [reflexivity |]; split; reflexivity |]).
    apply List.Forall_nil.
  - destruct (share_black rng src x y Hrng Hwf Hx Hy Hb)
      as (out1 & out2 & a & b & p1 & p2 & E & Ep & Ea & Eb & H1 & H2).
    exists out1, out2. split; [done |].
    rewrite (blockColours_pattern out1 x y p1), (blockColours_pattern out2 x y p2);
      try done; try (eapply patterns_length, index_elem_of; eassumption).
    eapply blackPairs_complement; [| eassumption..].
    eapply index_elem_of; eassumption.
Qed.

Lemma C1_black_pixel_overlay_witness :
  blackPairs = [ (0, 1); (1, 0); (2, 3); (3, 2); (4, 5); (5, 4) ]%Z ∧
  Forall (fun ab => ∃ p1 p2,
            index patterns ab.1 = Ok p1 ∧ index patterns ab.2 = Ok p2 ∧
            overlayBlocks (patternColours p1) (patternColours p2) = [B; B; B; B])
         blackPairs ∧
  ∃ out1 out2,
    shareImage halfRng src21 = Ok (out1, out2) ∧
    overlayBlocks (blockColours out1 0 0) (blockColours out2 0 0) = [B; B; B; B].
Proof.
  apply (C1_black_pixel_overlay halfRng src21 0 0);
    [unit_rng | reflexivity | vm_compute; lia | vm_compute; lia | reflexivity].
Defined.

(** C4: for a white source pixel (one the encoder does not classify as
    black), whatever is drawn, overlaying its blocks in the two shares gives
    a block with exactly two black and two white sub-pixels: neither all
    black nor all white. *)
Theorem C4_white_pixel_overlay (rng : nat → Q) (src : ImageData) (x y : nat) :
  unitRng rng → wfImage src → x < width src → y < height src →
  isBlack (data src) (pixelOffset (width src) x y) = false →
  ∃ out1 out2,
    shareImage rng src = Ok (out1, out2) ∧
    countBlack (overlayBlocks (blockColours out1 x y) (blockColours out2 x y)) = 2 ∧
    countWhite (overlayBlocks (blockColours out1 x y) (blockColours out2 x y)) = 2 ∧
    overlayBlocks (blockColours out1 x y) (blockColours out2 x y) ≠ [B; B; B; B] ∧
    overlayBlocks (blockColours out1 x y) (blockColours out2 x y) ≠ [W; W; W; W].
Proof.
  intros Hrng Hwf Hx Hy Hb.
  destruct (share_white rng src x y Hrng Hwf Hx Hy Hb)
    as (out1 & out2 & p & E & Ep & H1 & H2).
  exists out1, out2. split; [done |].
  pose proof (index_elem_of _ _ _ Ep) as Hin.
  rewrite !(blockColours_pattern _ x y p) by (try done; by apply patterns_length).
  assert (Hsame : ∀ l, overlayBlocks l l = l).
  { induction l as [|[] l IH]; [done | |]; cbn; f_equal; apply IH. }
  rewrite Hsame.
  destruct (patterns_two_black p Hin) as [Hb2 Hw2].
  repeat split; [done | done | |]; intros E'; rewrite E' in Hb2; discriminate Hb2.
Qed.

Lemma C4_white_pixel_overlay_witness :
  ∃ out1 out2,
    shareImage halfRng src21 = Ok (out1, out2) ∧
    countBlack (overlayBlocks (blockColours out1 1 0) (blockColours out2 1 0)) = 2 ∧
    countWhite (overlayBlocks (blockColours out1 1 0) (blockColours out2 1 0)) = 2 ∧
    overlayBlocks (blockColours out1 1 0) (blockColours out2 1 0) ≠ [B; B; B; B] ∧
    overlayBlocks (blockColours out1 1 0) (blockColours out2 1 0) ≠ [W; W; W; W].
Proof.
  apply (C4_white_pixel_overlay halfRng src21 1 0);
    [unit_rng | reflexivity | vm_compute; lia | vm_compute; lia | reflexivity].
Defined.

(** C10: the two patterns of every pair are black in disjoint places that
    together cover the four sub-pixels (each is the inverse of the other);
    every one of the six patterns is black in exactly two of its four
    sub-pixels; the blocks of a black source pixel differ between the two
    shares, and those of a white source pixel are equal. *)
Theorem C10_complementary_pairs (rng : nat → Q) (src : ImageData) (x y : nat) :
  unitRng rng → wfImage src → x < width src → y < height src →
  Forall (fun ab => ∃ p1 p2,
            index patterns ab.1 = Ok p1 ∧ index patterns ab.2 = Ok p2 ∧
            patternColours p2 = map invert (patternColours p1))
         blackPairs ∧
  Forall (fun p => length (patternColours p) = 4 ∧
                   countBlack (patternColours p) = 2) patterns ∧
  ∃ out1 out2,
    shareImage rng src = Ok (out1, out2) ∧
    if isBlack (data src) (pixelOffset (width src) x y)
    then blockColours out2 x y = map invert (blockColours out1 x y) ∧
         blockBytes out1 x y ≠ blockBytes out2 x y
    else blockBytes out1 x y = blockBytes out2 x y.
Proof.
  intros Hrng Hwf Hx Hy. split; [| split].
  - unfold blackPairs.
    repeat (apply List.Forall_cons;
            [do 2 eexists; split; [reflexivity |]; split; reflexivity |]).
    apply List.Forall_nil.
  - unfold patterns. repeat (apply List.Forall_cons; [by vm_compute |]).
    apply List.Forall_nil.
  - destruct (isBlack (data src) (pixelOffset (width src) x y)) eqn:Hb.
    + destruct (share_black rng src x y Hrng Hwf Hx Hy Hb)
        as (out1 & out2 & a & b & p1 & p2 & E & Ep & Ea & Eb & H1 & H2).
      exists out1, out2. split; [done |].
      destruct (blackPairs_complement a b p1 p2) as (Hinv & _ & Hne);
        [by eapply index_elem_of | done | done |].
      rewrite (blockColours_pattern out1 x y p1), (blockColours_pattern out2 x y p2);
        try done; try (eapply patterns_length, index_elem_of; eassumption).
      split; [done |]. rewrite H1, H2. intros E'. apply Hne.
      by apply (inj (fmap Some)) in E'.
    + destruct (share_white rng src x y Hrng Hwf Hx Hy Hb)
        as (out1 & out2 & p & E & Ep & H1 & H2).
      exists out1, out2. split; [done |]. by rewrite H1, H2.
Qed.

Lemma C10_complementary_pairs_witness :
  Forall (fun ab => ∃ p1 p2,
            index patterns ab.1 = Ok p1 ∧ index patterns ab.2 = Ok p2 ∧
            patternColours p2 = map invert (patternColours p1))
         blackPairs ∧
  Forall (fun p => length (patternColours p) = 4 ∧
                   countBlack (patternColours p) = 2) patterns ∧
  ∃ out1 out2,
    shareImage halfRng src21 = Ok (out1, out2) ∧
    if isBlack (data src21) (pixelOffset (width src21) 0 0)
    then blockColours out2 0 0 = map invert (blockColours out1 0 0) ∧
         blockBytes out1 0 0 ≠ blockBytes out2 0 0
    else blockBytes out1 0 0 = blockBytes out2 0 0.
Proof.
  apply (C10_complementary_pairs halfRng src21 0 0);
    [unit_rng | reflexivity | vm_compute; lia | vm_compute; lia].
Defined.

(** ** The claims about classification, placement, size and determinism *)

Lemma isBlack_opaqueBlack (d : list Z) (i : nat) :
  isBlack d i = true ↔ pixelBytes d i = opaqueBlack.
Proof.
  unfold isBlack, pixelBytes, opaqueBlack, looseEq.
  destruct (d !! (i + 0)) as [r|], (d !! (i + 1)) as [g|],
           (d !! (i + 2)) as [b|], (d !! (i + 3)) as [a|];
    rewrite ?andb_true_iff, ?Z.eqb_eq, ?andb_false_r; cbn;
    split; try discriminate; try (intros [[[? ?] ?] ?]; discriminate).
  - intros [[[-> ->] ->] ->]. done.
  - intros [= -> -> -> ->]. done.
Qed.

Lemma pixelStep_calls (rng : nat → Q) (src : list Z) (sw w i : nat) (s s' : state) :
  pixelStep rng src sw w i s = Ok s' → calls s' = S (calls s).
Proof.
  rewrite pixelStep_rows. destruct (chosen rng src (calls s) i); [| done | done].
  cbn [bind]. intros [= <-]. done.
Qed.

(** C5: a source pixel is classified black exactly when its channels are
    R=0, G=0, B=0, A=255; for any other value, grey or partly transparent
    ones included, the step takes the white branch, and the encoder returns
    normally, with the drawn pattern in both shares. *)
Theorem C5_black_iff_pure_black (rng : nat → Q) (src : ImageData) (x y : nat) :
  unitRng rng → wfImage src → x < width src → y < height src →
  (isBlack (data src) (pixelOffset (width src) x y) = true ↔
   pixelBytes (data src) (pixelOffset (width src) x y) = opaqueBlack) ∧
  (∀ s, pixelStep rng (data src) (width src) (width src * 2)
                  (pixelOffset (width src) x y) s =
        if decide (pixelBytes (data src) (pixelOffset (width src) x y) = opaqueBlack)
        then blackBranch rng (blockOffset (width src) (width src * 2)
                                (pixelOffset (width src) x y)) (width src * 2) s
        else whiteBranch rng (blockOffset (width src) (width src * 2)
                                (pixelOffset (width src) x y)) (width src * 2) s) ∧
  ∃ out1 out2,
    shareImage rng src = Ok (out1, out2) ∧
    (pixelBytes (data src) (pixelOffset (width src) x y) ≠ opaqueBlack →
     ∃ p, index patterns (randInt (rng (y * width src + x)) 6) = Ok p ∧
          blockBytes out1 x y = Some <$> p ∧ blockBytes out2 x y = Some <$> p).
Proof.
  intros Hrng Hwf Hx Hy. split; [apply isBlack_opaqueBlack |]. split.
  - intros s. unfold pixelStep.
    destruct (isBlack (data src) (pixelOffset (width src) x y)) eqn:Hb.
    + apply isBlack_opaqueBlack in Hb. by rewrite decide_True.
    + rewrite decide_False; [done |]. intros Hp%isBlack_opaqueBlack. congruence.
  - destruct (isBlack (data src) (pixelOffset (width src) x y)) eqn:Hb.
    + destruct (share_black rng src x y Hrng Hwf Hx Hy Hb) as (out1 & out2 & _ & _ & _ & _ & E & _).
      exists out1, out2. split; [done |]. intros Hne. destruct Hne.
      by apply isBlack_opaqueBlack.
    + destruct (share_white rng src x y Hrng Hwf Hx Hy Hb)
        as (out1 & out2 & p & E & Ep & H1 & H2).
      exists out1, out2. split; [done |]. intros _. by exists p.
Qed.

Lemma C5_black_iff_pure_black_witness :
  (isBlack (data (mkSrc 1 1 [grey])) (pixelOffset 1 0 0) = true ↔
   pixelBytes (data (mkSrc 1 1 [grey])) (pixelOffset 1 0 0) = opaqueBlack) ∧
  (∀ s, pixelStep halfRng (data (mkSrc 1 1 [grey])) 1 (1 * 2) (pixelOffset 1 0 0) s =
        if decide (pixelBytes (data (mkSrc 1 1 [grey])) (pixelOffset 1 0 0) = opaqueBlack)
        then blackBranch halfRng (blockOffset 1 (1 * 2) (pixelOffset 1 0 0)) (1 * 2) s
        else whiteBranch halfRng (blockOffset 1 (1 * 2) (pixelOffset 1 0 0)) (1 * 2) s) ∧
  ∃ out1 out2,
    shareImage halfRng (mkSrc 1 1 [grey]) = Ok (out1, out2) ∧
    (pixelBytes (data (mkSrc 1 1 [grey])) (pixelOffset 1 0 0) ≠ opaqueBlack →
     ∃ p, index patterns (randInt (halfRng (0 * 1 + 0)) 6) = Ok p ∧
          blockBytes out1 0 0 = Some <$> p ∧ blockBytes out2 0 0 = Some <$> p).
Proof.
  apply (C5_black_iff_pure_black halfRng (mkSrc 1 1 [grey]) 0 0);
    [unit_rng | reflexivity | vm_compute; lia | vm_compute; lia].
Defined.

(** C6: for a white source pixel the step makes one draw, an index [r] with
    [0 <= r < 6], and stores [patterns[r]] into the block of both shares, so
    the two blocks are equal byte for byte. *)
Theorem C6_white_same_pattern (rng : nat → Q) (src : ImageData) (x y : nat) :
  unitRng rng → wfImage src → x < width src → y < height src →
  isBlack (data src) (pixelOffset (width src) x y) = false →
  (∀ s s', pixelStep rng (data src) (width src) (width src * 2)
             (pixelOffset (width src) x y) s = Ok s' →
           calls s' = S (calls s)) ∧
  ∃ out1 out2 r p,
    shareImage rng src = Ok (out1, out2) ∧
    randInt (rng (y * width src + x)) (length patterns) = r ∧
    (0 <= r < 6)%Z ∧
    index patterns r = Ok p ∧
    blockBytes out1 x y = Some <$> p ∧
    blockBytes out2 x y = Some <$> p ∧
    blockBytes out1 x y = blockBytes out2 x y.
Proof.
  intros Hrng Hwf Hx Hy Hb. split; [intros s s'; apply pixelStep_calls |].
  destruct (share_white rng src x y Hrng Hwf Hx Hy Hb)
    as (out1 & out2 & p & E & Ep & H1 & H2).
  exists out1, out2, (randInt (rng (y * width src + x)) 6), p.
  split; [done |]. split; [done |].
  split; [apply (randInt_range _ 6 (Hrng _)); lia |].
  split; [done |]. split; [done |]. split; [done |]. by rewrite H1, H2.
Qed.

Lemma C6_white_same_pattern_witness :
  (∀ s s', pixelStep halfRng (data src21) (width src21) (width src21 * 2)
             (pixelOffset (width src21) 1 0) s = Ok s' →
           calls s' = S (calls s)) ∧
  ∃ out1 out2 r p,
    shareImage halfRng src21 = Ok (out1, out2) ∧
    randInt (halfRng (0 * width src21 + 1)) (length patterns) = r ∧
    (0 <= r < 6)%Z ∧
    index patterns r = Ok p ∧
    blockBytes out1 1 0 = Some <$> p ∧
    blockBytes out2 1 0 = Some <$> p ∧
    blockBytes out1 1 0 = blockBytes out2 1 0.
Proof.
  apply (C6_white_same_pattern halfRng src21 1 0);
    [unit_rng | reflexivity | vm_compute; lia | vm_compute; lia | reflexivity].
Defined.

Lemma pixelStep_other (rng : nat → Q) (src : list Z) (sw w i n : nat) (s s' : state) :
  pixelStep rng src sw w i s = Ok s' →
  (∀ k, k < 8 → n ≠ blockOffset sw w i + k ∧ n ≠ blockOffset sw w i + w * 4 + k) →
  data1 s' !! n = data1 s !! n ∧ data2 s' !! n = data2 s !! n.
Proof.
  rewrite pixelStep_rows. destruct (chosen rng src (calls s) i); [| done | done].
  cbn [bind]. intros [= <-] Hn. cbn [data1 data2].
  by rewrite !writeRows_other.
Qed.

(** C7: the block of the source pixel [(x, y)] starts at the row-major
    offset of the output pixel [(2x, 2y)] in a raster [2 * srcWidth] wide;
    the 16 bytes the step stores are those of the output pixels [(2x, 2y)],
    [(2x+1, 2y)], [(2x, 2y+1)] and [(2x+1, 2y+1)], and it stores nothing
    elsewhere; two distinct source pixels store at disjoint places; and the
    shares returned hold at these four pixels the pattern stored. *)
Theorem C7_block_placement (rng : nat → Q) (src : ImageData) (x y : nat) :
  unitRng rng → wfImage src → x < width src → y < height src →
  blockOffset (width src) (width src * 2) (pixelOffset (width src) x y)
    = pixelOffset (width src * 2) (2 * x) (2 * y) ∧
  (∀ k, k < 8 →
     blockOffset (width src) (width src * 2) (pixelOffset (width src) x y) + k
       = pixelOffset (width src * 2) (2 * x + k / 4) (2 * y) + k mod 4 ∧
     blockOffset (width src) (width src * 2) (pixelOffset (width src) x y)
         + width src * 2 * 4 + k
       = pixelOffset (width src * 2) (2 * x + k / 4) (2 * y + 1) + k mod 4) ∧
  (∀ s s' n,
     pixelStep rng (data src) (width src) (width src * 2)
       (pixelOffset (width src) x y) s = Ok s' →
     (∀ k, k < 8 →
        n ≠ blockOffset (width src) (width src * 2) (pixelOffset (width src) x y) + k ∧
        n ≠ blockOffset (width src) (width src * 2) (pixelOffset (width src) x y)
              + width src * 2 * 4 + k) →
     data1 s' !! n = data1 s !! n ∧ data2 s' !! n = data2 s !! n) ∧
  (∀ x' y' r r' k k',
     x' < width src → (x', y') ≠ (x, y) → r < 2 → r' < 2 → k < 8 → k' < 8 →
     blockOffset (width src) (width src * 2) (pixelOffset (width src) x y)
       + r * (width src * 2 * 4) + k
     ≠ blockOffset (width src) (width src * 2) (pixelOffset (width src) x' y')
       + r' * (width src * 2 * 4) + k') ∧
  ∃ out1 out2 p1 p2,
    shareImage rng src = Ok (out1, out2) ∧
    chosen rng (data src) (y * width src + x) (pixelOffset (width src) x y)
      = Ok (p1, p2) ∧
    blockPixels out1 x y = patternPixels p1 ∧
    blockPixels out2 x y = patternPixels p2.
Proof.
  intros Hrng Hwf Hx Hy.
  rewrite (blockOffset_pixel (width src) x y Hx).
  split; [done |]. split; [| split; [| split]].
  - intros k Hk. unfold pixelOffset.
    pose proof (Nat.div_mod_eq k 4). lia.
  - intros s s' n Hstep Hn. eapply pixelStep_other; [exact Hstep |].
    by rewrite (blockOffset_pixel (width src) x y Hx).
  - intros x' y' r r' k k' Hx' Hne Hr Hr' Hk Hk' E. apply Hne.
    rewrite (blockOffset_pixel (width src) x' y' Hx') in E.
    unfold pixelOffset in E.
    destruct (cell_unique (width src) y x r k y' x' r' k') as (-> & -> & _);
      [done.. | lia | done].
  - destruct (shareImage_blocks rng src Hrng Hwf) as (s & _ & _ & _ & _ & E & Hblk).
    destruct (Hblk x y Hx Hy) as (p1 & p2 & Ech & H1 & H2).
    destruct (chosen_length _ _ _ _ _ _ Ech) as [L1 L2].
    do 2 eexists. exists p1, p2. split; [exact E |]. split; [done |].
    split; by apply blockPixels_pattern.
Qed.

Lemma C7_block_placement_witness :
  blockOffset (width src21) (width src21 * 2) (pixelOffset (width src21) 1 0)
    = pixelOffset (width src21 * 2) (2 * 1) (2 * 0) ∧
  (∀ k, k < 8 →
     blockOffset (width src21) (width src21 * 2) (pixelOffset (width src21) 1 0) + k
       = pixelOffset (width src21 * 2) (2 * 1 + k / 4) (2 * 0) + k mod 4 ∧
     blockOffset (width src21) (width src21 * 2) (pixelOffset (width src21) 1 0)
         + width src21 * 2 * 4 + k
       = pixelOffset (width src21 * 2) (2 * 1 + k / 4) (2 * 0 + 1) + k mod 4) ∧
  (∀ s s' n,
     pixelStep halfRng (data src21) (width src21) (width src21 * 2)
       (pixelOffset (width src21) 1 0) s = Ok s' →
     (∀ k, k < 8 →
        n ≠ blockOffset (width src21) (width src21 * 2)
              (pixelOffset (width src21) 1 0) + k ∧
        n ≠ blockOffset (width src21) (width src21 * 2)
              (pixelOffset (width src21) 1 0) + width src21 * 2 * 4 + k) →
     data1 s' !! n = data1 s !! n ∧ data2 s' !! n = data2 s !! n) ∧
  (∀ x' y' r r' k k',
     x' < width src21 → (x', y') ≠ (1, 0) → r < 2 → r' < 2 → k < 8 → k' < 8 →
     blockOffset (width src21) (width src21 * 2) (pixelOffset (width src21) 1 0)
       + r * (width src21 * 2 * 4) + k
     ≠ blockOffset (width src21) (width src21 * 2) (pixelOffset (width src21) x' y')
       + r' * (width src21 * 2 * 4) + k') ∧
  ∃ out1 out2 p1 p2,
    shareImage halfRng src21 = Ok (out1, out2) ∧
    chosen halfRng (data src21) (0 * width src21 + 1) (pixelOffset (width src21) 1 0)
      = Ok (p1, p2) ∧
    blockPixels out1 1 0 = patternPixels p1 ∧
    blockPixels out2 1 0 = patternPixels p2.
Proof.
  apply (C7_block_placement halfRng src21 1 0);
    [unit_rng | reflexivity | vm_compute; lia | vm_compute; lia].
Defined.

(** C8: for every source raster of [w] by [h] pixels the encoder returns
    two rasters, each [2 * w] wide and [2 * h] high, with the four bytes a
    pixel of such a raster. *)
Theorem C8_share_dimensions (rng : nat → Q) (src : ImageData) :
  unitRng rng → wfImage src →
  ∃ out1 out2,
    shareImage rng src = Ok (out1, out2) ∧
    width out1 = 2 * width src ∧ height out1 = 2 * height src ∧
    width out2 = 2 * width src ∧ height out2 = 2 * height src ∧
    wfImage out1 ∧ wfImage out2.
Proof.
  intros Hrng Hwf.
  destruct (shareImage_blocks rng src Hrng Hwf) as (s & _ & _ & L1 & L2 & E & _).
  do 2 eexists. split; [exact E |]. unfold wfImage. cbn [width height data].
  repeat split; [lia | lia | lia | lia | done | done].
Qed.

Lemma C8_share_dimensions_witness :
  ∃ out1 out2,
    shareImage halfRng src21 = Ok (out1, out2) ∧
    width out1 = 2 * width src21 ∧ height out1 = 2 * height src21 ∧
    width out2 = 2 * width src21 ∧ height out2 = 2 * height src21 ∧
    wfImage out1 ∧ wfImage out2.
Proof.
  apply (C8_share_dimensions halfRng src21); [unit_rng | reflexivity].
Defined.

Lemma pixelStep_ext (rng rng' : nat → Q) (src : list Z) (sw w i : nat) (s : state) :
  randInt (rng (calls s)) 6 = randInt (rng' (calls s)) 6 →
  pixelStep rng src sw w i s = pixelStep rng' src sw w i s.
Proof.
  intros E. unfold pixelStep, blackBranch, whiteBranch.
  change (length blackPairs) with 6. change (length patterns) with 6.
  by rewrite E.
Qed.

Lemma forLoop_ext (rng rng' : nat → Q) (src : list Z) (sw w stop : nat) :
  (∀ q, 4 * q < stop → randInt (rng q) 6 = randInt (rng' q) 6) →
  ∀ fuel q s, calls s = q →
    forLoop fuel (4 * q) stop 4 (pixelStep rng src sw w) s =
    forLoop fuel (4 * q) stop 4 (pixelStep rng' src sw w) s.
Proof.
  intros Hdraws. induction fuel as [|fuel IH]; intros q s Hc; cbn [forLoop]; [done |].
  destruct (Nat.ltb_spec (4 * q) stop) as [Hlt | Hge]; [| done].
  rewrite <- (pixelStep_ext rng rng') by (rewrite Hc; by apply Hdraws).
  destruct (pixelStep rng src sw w (4 * q) s) as [s1| |] eqn:E1; cbn [bind]; [| done | done].
  replace (4 * q + 4) with (4 * S q) by lia.
  apply IH. rewrite (pixelStep_calls _ _ _ _ _ _ _ E1). by rewrite Hc.
Qed.

(** C9: the two shares are a function of the source raster and of the
    sequence of draws: two runs on the same raster whose draws, one a source
    pixel, are the same return the same pair of rasters. *)
Theorem C9_deterministic (rng rng' : nat → Q) (src : ImageData) :
  wfImage src →
  (∀ q, q < width src * height src →
        randInt (rng q) 6 = randInt (rng' q) 6) →
  shareImage rng src = shareImage rng' src.
Proof.
  intros Hwf Hdraws. unfold shareImage, shareLoop. f_equal.
  apply (forLoop_ext rng rng' (data src) (width src) (width src * 2)
           (length (data src))) with (q := 0); [| done].
  intros q Hq. apply Hdraws. rewrite Hwf in Hq. lia.
Qed.

Lemma C9_deterministic_witness :
  shareImage halfRng src21 = shareImage (constRng (7 # 12)) src21.
Proof.
  apply (C9_deterministic halfRng (constRng (7 # 12)) src21);
    [reflexivity | intros q _; reflexivity].
Defined.


(** ** Further properties of the encoder *)

Lemma index_outside {A : Type} (l : list A) (z : Z) :
  ¬ (0 <= z < Z.of_nat (length l))%Z → index l z = TypeError.
Proof.
  intros Hz. unfold index. destruct (Z.ltb_spec z 0); [done |].
  rewrite lookup_ge_None_2; [done | lia].
Qed.

Lemma below_six (z : Z) :
  (0 <= z < 6)%Z → z = 0%Z ∨ z = 1%Z ∨ z = 2%Z ∨ z = 3%Z ∨ z = 4%Z ∨ z = 5%Z.
Proof. lia. Qed.

(** The first pattern chosen is [patterns[r]] whatever the source pixel. *)
Lemma chosen_fst (rng : nat → Q) (src : list Z) (c i : nat) :
  mapResult fst (chosen rng src c i) = index patterns (randInt (rng c) 6).
Proof.
  unfold chosen. change (length blackPairs) with 6. change (length patterns) with 6.
  generalize (randInt (rng c) 6). intros z.
  destruct (isBlack src i).
  - destruct (decide (0 <= z < 6)%Z) as [Hz | Hz].
    + destruct (below_six z Hz) as [-> | [-> | [-> | [-> | [-> | ->]]]]]; reflexivity.
    + rewrite (index_outside blackPairs z), (index_outside patterns z); done.
  - unfold mapResult. by destruct (index patterns z).
Qed.

Lemma pixelStep_share1 (rng : nat → Q) (src : list Z) (sw w i : nat) (s : state) :
  mapResult share1View (pixelStep rng src sw w i s) =
  let* p := index patterns (randInt (rng (calls s)) 6) in
  Ok (S (calls s), writeRows (blockOffset sw w i) w p (data1 s)).
Proof.
  rewrite pixelStep_rows, <- (chosen_fst rng src (calls s) i). unfold mapResult.
  by destruct (chosen rng src (calls s) i) as [[p1 p2]| |].
Qed.

Lemma forLoop_view {St V : Type} (view : St → V)
    (body body' : nat → St → result St) (stop step : nat) :
  (∀ i s s', view s = view s' →
     mapResult view (body i s) = mapResult view (body' i s')) →
  ∀ fuel i s s', view s = view s' →
    mapResult view (forLoop fuel i stop step body s) =
    mapResult view (forLoop fuel i stop step body' s').
Proof.
  intros Hbody. induction fuel as [|fuel IH]; intros i s s' Hv; cbn [forLoop].
  - destruct (i <? stop); cbn; [done | by rewrite Hv].
  - destruct (i <? stop); cbn; [| by rewrite Hv].
    pose proof (Hbody i s s' Hv) as Hstep.
    destruct (body i s) as [s1| |], (body' i s') as [s1'| |]; cbn in Hstep |- *;
      try done.
    apply IH. congruence.
Qed.

(** X1: the first share does not depend on the pixels of the source: two
    sources of the same size give, for the same draws, the same first share
    (or fail alike), because the first element of [blackPairs[r]] is [r]. *)
Theorem X1_share1_ignores_source (rng : nat → Q) (src src' : ImageData) :
  width src = width src' → height src = height src' →
  length (data src) = length (data src') →
  mapResult fst (shareImage rng src) = mapResult fst (shareImage rng src').
Proof.
  intros Hw Hh Hl.
  assert (Hloop : mapResult share1View (shareLoop rng src)
                  = mapResult share1View (shareLoop rng src')).
  { unfold shareLoop. rewrite Hw, Hh, Hl.
    apply forLoop_view; [| done].
    intros i s s' Hv. rewrite !pixelStep_share1.
    unfold share1View in Hv. injection Hv as -> ->. done. }
  unfold shareImage. rewrite Hw, Hh.
  destruct (shareLoop rng src) as [s| |], (shareLoop rng src') as [s'| |];
    cbn in Hloop |- *; try done.
  unfold share1View in Hloop. congruence.
Qed.


Lemma X1_share1_ignores_source_witness :
  mapResult fst (shareImage halfRng src21)
  = mapResult fst (shareImage halfRng (mkSrc 2 1 [white; black])).
Proof.
  apply (X1_share1_ignores_source halfRng src21 (mkSrc 2 1 [white; black]));
    reflexivity.
Defined.





(** The stacked block of a source pixel: all black for a black pixel, the
    drawn pattern for a white one. *)
Lemma shareImage_stacked (rng : nat → Q) (src : ImageData) (x y : nat) :
  unitRng rng → wfImage src → x < width src → y < height src →
  ∃ out1 out2 p,
    shareImage rng src = Ok (out1, out2) ∧ p ∈ patterns ∧
    stackedBlock out1 out2 x y =
      if isBlack (data src) (pixelOffset (width src) x y)
      then [B; B; B; B] else patternColours p.
Proof.
  intros Hrng Hwf Hx Hy. unfold stackedBlock.
  destruct (isBlack (data src) (pixelOffset (width src) x y)) eqn:Hb.
  - destruct (share_black rng src x y Hrng Hwf Hx Hy Hb)
      as (out1 & out2 & a & b & p1 & p2 & E & Ep & Ea & Eb & H1 & H2).
    exists out1, out2, p1. split; [done |].
    split; [by eapply index_elem_of |].
    rewrite (blockColours_pattern out1 x y p1), (blockColours_pattern out2 x y p2);
      try done; try (eapply patterns_length, index_elem_of; eassumption).
    eapply blackPairs_complement; [| eassumption..].
    eapply index_elem_of; eassumption.
  - destruct (share_white rng src x y Hrng Hwf Hx Hy Hb)
      as (out1 & out2 & p & E & Ep & H1 & H2).
    pose proof (index_elem_of _ _ _ Ep) as Hin.
    exists out1, out2, p. split; [done |]. split; [done |].
    rewrite (blockColours_pattern out1 x y p), (blockColours_pattern out2 x y p);
      try done; try by apply patterns_length.
    induction (patternColours p) as [|[] l IH]; [done | |]; cbn; f_equal; apply IH.
Qed.

Lemma pattern_not_all_black (p : list Z) :
  p ∈ patterns → patternColours p ≠ [B; B; B; B].
Proof.
  intros Hin E. destruct (patterns_two_black p Hin) as [Hb2 _].
  rewrite E in Hb2. discriminate Hb2.
Qed.

(** X3: stacking the two shares gives the source back: the block of a
    source pixel reads as all black exactly when the encoder classified the
    pixel as black. *)
Theorem X3_decode_encode (rng : nat → Q) (src : ImageData) (x y : nat) :
  unitRng rng → wfImage src → x < width src → y < height src →
  ∃ out1 out2,
    shareImage rng src = Ok (out1, out2) ∧
    decodePixel out1 out2 x y = isBlack (data src) (pixelOffset (width src) x y).
Proof.
  intros Hrng Hwf Hx Hy.
  destruct (shareImage_stacked rng src x y Hrng Hwf Hx Hy)
    as (out1 & out2 & p & E & Hin & Hst).
  exists out1, out2. split; [done |]. unfold decodePixel. rewrite Hst.
  destruct (isBlack (data src) (pixelOffset (width src) x y)).
  - by apply bool_decide_eq_true.
  - apply bool_decide_eq_false. by apply pattern_not_all_black.
Qed.

Lemma X3_decode_encode_witness :
  ∃ out1 out2,
    shareImage halfRng src21 = Ok (out1, out2) ∧
    decodePixel out1 out2 1 0 = isBlack (data src21) (pixelOffset (width src21) 1 0).
Proof.
  apply (X3_decode_encode halfRng src21 1 0);
    [unit_rng | reflexivity | vm_compute; lia | vm_compute; lia].
Defined.

Lemma four_eq {A : Type} (a b c d a' b' c' d' : A) :
  [a; b; c; d] = [a'; b'; c'; d'] → a = a' ∧ b = b' ∧ c = c' ∧ d = d'.
Proof. intros [= -> -> -> ->]. done. Qed.

(** X4: the pixel [(X, Y)] of a share is the sub-pixel at column [X mod 2]
    and row [Y mod 2] of the pattern chosen for the source pixel
    [(X / 2, Y / 2)]: every pixel of the two shares is set by the source
    pixel above it and by that pixel's draw alone. *)
Theorem X4_share_pixel (rng : nat → Q) (src : ImageData) (X Y : nat) :
  unitRng rng → wfImage src → X < 2 * width src → Y < 2 * height src →
  ∃ out1 out2 p1 p2,
    shareImage rng src = Ok (out1, out2) ∧
    chosen rng (data src) (Y / 2 * width src + X / 2)
           (pixelOffset (width src) (X / 2) (Y / 2)) = Ok (p1, p2) ∧
    pixelBytes (data out1) (pixelOffset (width out1) X Y)
      = patternPixel p1 (X mod 2) (Y mod 2) ∧
    pixelBytes (data out2) (pixelOffset (width out2) X Y)
      = patternPixel p2 (X mod 2) (Y mod 2).
Proof.
  intros Hrng Hwf HX HY.
  destruct (shareImage_blocks rng src Hrng Hwf) as (s & _ & _ & _ & _ & E & Hblk).
  destruct (Hblk (X / 2) (Y / 2)) as (p1 & p2 & Ech & H1 & H2);
    [apply Nat.Div0.div_lt_upper_bound; lia
    | apply Nat.Div0.div_lt_upper_bound; lia |].
  destruct (chosen_length _ _ _ _ _ _ Ech) as [L1 L2].
  do 2 eexists. exists p1, p2. split; [exact E |]. split; [done |].
  apply blockPixels_pattern in H1; [| done]. apply blockPixels_pattern in H2; [| done].
  unfold blockPixels, patternPixels in H1, H2. cbn [seq map width data] in H1, H2.
  apply four_eq in H1 as (A0 & A1 & A2 & A3).
  apply four_eq in H2 as (B0 & B1 & B2 & B3).
  cbn [width data]. unfold patternPixel.
  pose proof (Nat.div_mod_eq X 2) as EX. pose proof (Nat.div_mod_eq Y 2) as EY.
  pose proof (Nat.mod_upper_bound X 2 ltac:(lia)) as BX.
  pose proof (Nat.mod_upper_bound Y 2 ltac:(lia)) as BY.
  remember (X / 2) as a eqn:Ea. remember (Y / 2) as b eqn:Eb.
  destruct (X mod 2) as [|[|?]] eqn:MX; [| | lia];
    (destruct (Y mod 2) as [|[|?]] eqn:MY; [| | lia]);
    rewrite ?Nat.add_0_r in EX; rewrite ?Nat.add_0_r in EY;
    rewrite EX, EY; split; assumption.
Qed.

Lemma X4_share_pixel_witness :
  ∃ out1 out2 p1 p2,
    shareImage halfRng src21 = Ok (out1, out2) ∧
    chosen halfRng (data src21) (1 / 2 * width src21 + 3 / 2)
           (pixelOffset (width src21) (3 / 2) (1 / 2)) = Ok (p1, p2) ∧
    pixelBytes (data out1) (pixelOffset (width out1) 3 1)
      = patternPixel p1 (3 mod 2) (1 mod 2) ∧
    pixelBytes (data out2) (pixelOffset (width out2) 3 1)
      = patternPixel p2 (3 mod 2) (1 mod 2).
Proof.
  apply (X4_share_pixel halfRng src21 3 1);
    [unit_rng | reflexivity | vm_compute; lia | vm_compute; lia].
Defined.

(** X5: in each share taken alone, the block of every source pixel, black
    or white, holds one of the six patterns and so has exactly two black and
    two white sub-pixels: the density of a share is the same everywhere. *)
Theorem X5_share_block_half_black (rng : nat → Q) (src : ImageData) (x y : nat) :
  unitRng rng → wfImage src → x < width src → y < height src →
  ∃ out1 out2 p1 p2,
    shareImage rng src = Ok (out1, out2) ∧
    p1 ∈ patterns ∧ p2 ∈ patterns ∧
    blockBytes out1 x y = Some <$> p1 ∧ blockBytes out2 x y = Some <$> p2 ∧
    countBlack (blockColours out1 x y) = 2 ∧ countWhite (blockColours out1 x y) = 2 ∧
    countBlack (blockColours out2 x y) = 2 ∧ countWhite (blockColours out2 x y) = 2.
Proof.
  intros Hrng Hwf Hx Hy.
  destruct (shareImage_blocks rng src Hrng Hwf) as (s & _ & _ & _ & _ & E & Hblk).
  destruct (Hblk x y Hx Hy) as (p1 & p2 & Ech & H1 & H2).
  destruct (chosen_length _ _ _ _ _ _ Ech) as [L1 L2].
  assert (Hin : p1 ∈ patterns ∧ p2 ∈ patterns).
  { destruct (isBlack (data src) (pixelOffset (width src) x y)) eqn:Eb.
    - destruct (chosen_black _ _ _ _ _ _ Eb Ech) as (a & b & _ & Ea & Eb').
      split; eapply index_elem_of; eassumption.
    - destruct (chosen_white _ _ _ _ _ _ Eb Ech) as (Ep & ->).
      split; eapply index_elem_of; eassumption. }
  destruct Hin as [In1 In2].
  do 2 eexists. exists p1, p2. split; [exact E |].
  rewrite (blockColours_pattern _ x y p1 L1 H1), (blockColours_pattern _ x y p2 L2 H2).
  destruct (patterns_two_black p1 In1), (patterns_two_black p2 In2).
  repeat split; done.
Qed.

Lemma X5_share_block_half_black_witness :
  ∃ out1 out2 p1 p2,
    shareImage halfRng src21 = Ok (out1, out2) ∧
    p1 ∈ patterns ∧ p2 ∈ patterns ∧
    blockBytes out1 0 0 = Some <$> p1 ∧ blockBytes out2 0 0 = Some <$> p2 ∧
    countBlack (blockColours out1 0 0) = 2 ∧ countWhite (blockColours out1 0 0) = 2 ∧
    countBlack (blockColours out2 0 0) = 2 ∧ countWhite (blockColours out2 0 0) = 2.
Proof.
  apply (X5_share_block_half_black halfRng src21 0 0);
    [unit_rng | reflexivity | vm_compute; lia | vm_compute; lia].
Defined.



(** ** The binarizer *)

Lemma forLoop_pixels {St : Type} (Inv : nat → St → Prop)
    (body : nat → St → result St) (n : nat) :
  (∀ q s, q < n → Inv q s → ∃ s', body (4 * q) s = Ok s' ∧ Inv (S q) s') →
  ∀ fuel q s, q ≤ n → n - q ≤ fuel → Inv q s →
    ∃ s', forLoop fuel (4 * q) (4 * n) 4 body s = Ok s' ∧ Inv n s'.
Proof.
  intros Hstep. induction fuel as [|fuel IH]; intros q s Hq Hfuel Hinv; cbn [forLoop].
  - destruct (Nat.ltb_spec (4 * q) (4 * n)); [lia |].
    assert (q = n) as <- by lia. eauto.
  - destruct (Nat.ltb_spec (4 * q) (4 * n)) as [Hlt | Hge].
    + destruct (Hstep q s ltac:(lia) Hinv) as (s1 & E1 & Hinv1).
      rewrite E1. cbn [bind]. replace (4 * q + 4) with (4 * S q) by lia.
      apply IH; [lia | lia | done].
    + assert (q = n) as <- by lia. eauto.
Qed.

Lemma binaryStep_inv (threshold : float) (src : list Z) (n q : nat) (d : list Z) :
  q < n → binaryInv threshold src n q d →
  ∃ d', binaryStep threshold src (4 * q) d = Ok d' ∧
        binaryInv threshold src n (S q) d'.
Proof.
  intros Hq [Hlen Hdone]. unfold binaryStep. eexists. split; [reflexivity |].
  split.
  - destruct (threshold <=? luminance src (4 * q))%float; by rewrite !length_insert.
  - intros q' Hq'. destruct (decide (q' = q)) as [-> | Hne].
    + unfold pixelBytes, binaryPixel.
      destruct (threshold <=? luminance src (4 * q))%float; lookup_inserts; done.
    + rewrite <- (Hdone q') by lia. unfold pixelBytes.
      destruct (threshold <=? luminance src (4 * q))%float; lookup_inserts; done.
Qed.

(** The binarizer returns, keeps the size, and writes for every pixel opaque
    white when the threshold is at most the luminance, opaque black
    otherwise. *)
Lemma toBinaryImage_pixels (img : ImageData) (threshold : float) :
  wfImage img →
  ∃ out,
    toBinaryImage img threshold = Ok out ∧
    width out = width img ∧ height out = height img ∧ wfImage out ∧
    ∀ q, q < width img * height img →
      pixelBytes (data out) (4 * q)
      = binaryPixel (threshold <=? luminance (data img) (4 * q))%float.
Proof.
  intros Hwf. unfold toBinaryImage. rewrite Hwf.
  replace (4 * width img * height img) with (4 * (width img * height img)) by lia.
  destruct (forLoop_pixels (binaryInv threshold (data img) (width img * height img))
              (binaryStep threshold (data img)) (width img * height img)
              (binaryStep_inv threshold (data img) (width img * height img))
              (4 * (width img * height img)) 0
              (data (createImageData (width img) (height img))))
    as (d & Ed & Hlen & Hpix); [lia | lia | |].
  - split; [cbn; rewrite length_replicate; lia |]. intros q' Hq'. lia.
  - change (4 * 0) with 0 in Ed. rewrite Ed. cbn [bind].
    eexists. split; [reflexivity |]. cbn [width height data createImageData].
    split; [done |]. split; [done |]. split; [unfold wfImage; cbn; lia |]. done.
Qed.

Lemma pixels_data (n : nat) (d d' : list Z) :
  length d = 4 * n → length d' = 4 * n →
  (∀ q, q < n → pixelBytes d (4 * q) = pixelBytes d' (4 * q)) →
  d = d'.
Proof.
  intros Hl Hl' Hpix. apply list_eq. intros k.
  destruct (decide (k < 4 * n)) as [Hk | Hk].
  - pose proof (Nat.div_mod_eq k 4) as Ek.
    pose proof (Nat.mod_upper_bound k 4 ltac:(lia)) as Bk.
    specialize (Hpix (k / 4) ltac:(lia)). unfold pixelBytes in Hpix.
    apply four_eq in Hpix as (E0 & E1 & E2 & E3).
    rewrite Ek. destruct (k mod 4) as [|[|[|[|?]]]]; [done.. | lia].
  - rewrite !lookup_ge_None_2; [done | lia | lia].
Qed.

(** X7: the binarizer returns a raster of the size of its input in which
    every pixel is opaque white when the threshold is at most the luminance
    of the input pixel and opaque black otherwise; the alpha channel of the
    input plays no part. *)
Theorem X7_toBinaryImage_pixels (img : ImageData) (threshold : float) (x y : nat) :
  wfImage img → x < width img → y < height img →
  ∃ out,
    toBinaryImage img threshold = Ok out ∧
    width out = width img ∧ height out = height img ∧ wfImage out ∧
    pixelBytes (data out) (pixelOffset (width out) x y)
    = if (threshold <=? luminance (data img) (pixelOffset (width img) x y))%float
      then opaqueWhite else opaqueBlack.
Proof.
  intros Hwf Hx Hy.
  destruct (toBinaryImage_pixels img threshold Hwf) as (out & E & Hw & Hh & Hwf' & Hpix).
  exists out. rewrite Hw. repeat split; try done.
  apply (Hpix (y * width img + x)). nia.
Qed.

Lemma X7_toBinaryImage_pixels_witness :
  ∃ out,
    toBinaryImage (mkSrc 1 1 [grey]) BINARY_THRESHOLD = Ok out ∧
    width out = width (mkSrc 1 1 [grey]) ∧
    height out = height (mkSrc 1 1 [grey]) ∧ wfImage out ∧
    pixelBytes (data out) (pixelOffset (width out) 0 0)
    = if (BINARY_THRESHOLD <=?
          luminance (data (mkSrc 1 1 [grey]))
            (pixelOffset (width (mkSrc 1 1 [grey])) 0 0))%float
      then opaqueWhite else opaqueBlack.
Proof.
  apply (X7_toBinaryImage_pixels (mkSrc 1 1 [grey]) BINARY_THRESHOLD 0 0);
    [reflexivity | vm_compute; lia | vm_compute; lia].
Defined.

(** X8: binarizing, encoding and stacking the shares: the block of a source
    pixel reads as all black exactly when the luminance of the pixel is not
    at least the threshold. *)
Theorem X8_binarize_share_decode (rng : nat → Q) (img : ImageData)
    (threshold : float) (x y : nat) :
  unitRng rng → wfImage img → x < width img → y < height img →
  ∃ bin out1 out2,
    toBinaryImage img threshold = Ok bin ∧
    shareImage rng bin = Ok (out1, out2) ∧
    decodePixel out1 out2 x y
    = negb (threshold <=? luminance (data img) (pixelOffset (width img) x y))%float.
Proof.
  intros Hrng Hwf Hx Hy.
  destruct (toBinaryImage_pixels img threshold Hwf) as (bin & E & Hw & Hh & Hwf' & Hpix).
  specialize (Hpix (y * width img + x) ltac:(nia)).
  fold (pixelOffset (width img) x y) in Hpix.
  assert (Hb : isBlack (data bin) (pixelOffset (width bin) x y)
               = negb (threshold <=? luminance (data img)
                                       (pixelOffset (width img) x y))%float).
  { rewrite Hw.
    destruct (threshold <=? luminance (data img) (pixelOffset (width img) x y))%float;
      cbn [negb binaryPixel] in *.
    - destruct (isBlack (data bin) (pixelOffset (width img) x y)) eqn:Eb; [| done].
      apply isBlack_opaqueBlack in Eb. rewrite Eb in Hpix. discriminate Hpix.
    - by apply isBlack_opaqueBlack. }
  destruct (shareImage_stacked rng bin x y Hrng Hwf')
    as (out1 & out2 & p & Es & Hin & Hst); [lia | lia |].
  exists bin, out1, out2. split; [done |]. split; [done |].
  unfold decodePixel. rewrite Hst, Hb.
  destruct (threshold <=? luminance (data img) (pixelOffset (width img) x y))%float;
    cbn [negb].
  - apply bool_decide_eq_false. by apply pattern_not_all_black.
  - by apply bool_decide_eq_true.
Qed.

Lemma X8_binarize_share_decode_witness :
  ∃ bin out1 out2,
    toBinaryImage (mkSrc 1 1 [grey]) BINARY_THRESHOLD = Ok bin ∧
    shareImage halfRng bin = Ok (out1, out2) ∧
    decodePixel out1 out2 0 0
    = negb (BINARY_THRESHOLD <=?
            luminance (data (mkSrc 1 1 [grey]))
              (pixelOffset (width (mkSrc 1 1 [grey])) 0 0))%float.
Proof.
  apply (X8_binarize_share_decode halfRng (mkSrc 1 1 [grey]) BINARY_THRESHOLD 0 0);
    [unit_rng | reflexivity | vm_compute; lia | vm_compute; lia].
Defined.

Lemma luminance_binaryPixel (d : list Z) (i : nat) (b : bool) :
  pixelBytes d i = binaryPixel b →
  luminance d i = luminance (if b then white else black) 0.
Proof.
  unfold pixelBytes, luminance. rewrite Nat.add_0_r.
  destruct b; intros [= -> -> -> _]; reflexivity.
Qed.

(** X9: binarizing twice is binarizing once, for every threshold that is
    above the luminance of black and at most the luminance the binarizer
    computes for white (254.99999999999997): the output of the binarizer is
    a fixed point of it. *)
Theorem X9_toBinaryImage_idempotent (img : ImageData) (threshold : float) :
  wfImage img →
  (threshold <=? luminance white 0)%float = true →
  (threshold <=? luminance black 0)%float = false →
  ∃ out,
    toBinaryImage img threshold = Ok out ∧
    toBinaryImage out threshold = Ok out.
Proof.
  intros Hwf Hwhite Hblack.
  destruct (toBinaryImage_pixels img threshold Hwf) as (out & E & Hw & Hh & Hwf' & Hpix).
  destruct (toBinaryImage_pixels out threshold Hwf')
    as (out' & E' & Hw' & Hh' & Hwf'' & Hpix').
  exists out. split; [done |]. rewrite E'. f_equal.
  destruct out as [w h d], out' as [w' h' d']. cbn [width height data] in *.
  subst w' h' w h. f_equal.
  unfold wfImage in Hwf', Hwf''. cbn [width height data] in Hwf', Hwf''.
  apply (pixels_data (width img * height img)); [lia | lia |].
  intros q Hq. rewrite (Hpix' q Hq).
  rewrite (luminance_binaryPixel d (4 * q) _ (Hpix q Hq)), (Hpix q Hq).
  destruct (threshold <=? luminance (data img) (4 * q))%float.
  - by rewrite Hwhite.
  - by rewrite Hblack.
Qed.

Lemma X9_toBinaryImage_idempotent_witness :
  ∃ out,
    toBinaryImage src21 BINARY_THRESHOLD = Ok out ∧
    toBinaryImage out BINARY_THRESHOLD = Ok out.
Proof.
  apply (X9_toBinaryImage_idempotent src21 BINARY_THRESHOLD);
    [reflexivity | vm_compute; reflexivity | vm_compute; reflexivity].
Defined.

Lemma grey_table :
  forallb (fun v =>
             Bool.eqb (BINARY_THRESHOLD <=? luminance [v; v; v] 0)%float
                      (128 <=? v)%Z &&
             negb (255 <=? luminance [v; v; v] 0)%float)
          (map Z.of_nat (seq 0 256)) = true.
Proof. vm_compute. reflexivity. Qed.

Lemma luminance_grey (d : list Z) (i : nat) (v : Z) :
  d !! i = Some v → d !! (i + 1) = Some v → d !! (i + 2) = Some v →
  luminance d i = luminance [v; v; v] 0.
Proof. unfold luminance. by intros -> -> ->. Qed.

(** X10: at the threshold of the application, 128, a grey pixel [(v, v, v)]
    with any alpha becomes white exactly when [v >= 128]: rounding in the
    luminance moves no grey level across the threshold.  At the threshold
    255 no grey pixel becomes white, not even pure white, whose computed
    luminance is below 255. *)
Theorem X10_grey_levels (img : ImageData) (x y : nat) (v : Z) :
  wfImage img → x < width img → y < height img →
  (0 <= v <= 255)%Z →
  data img !! (pixelOffset (width img) x y) = Some v →
  data img !! (pixelOffset (width img) x y + 1) = Some v →
  data img !! (pixelOffset (width img) x y + 2) = Some v →
  (∃ out,
     toBinaryImage img BINARY_THRESHOLD = Ok out ∧
     pixelBytes (data out) (pixelOffset (width out) x y)
     = if (128 <=? v)%Z then opaqueWhite else opaqueBlack) ∧
  (∃ out,
     toBinaryImage img 255%float = Ok out ∧
     pixelBytes (data out) (pixelOffset (width out) x y) = opaqueBlack).
Proof.
  intros Hwf Hx Hy Hv Hr Hg Hb.
  pose proof (luminance_grey _ _ _ Hr Hg Hb) as El.
  assert (Hin : In v (map Z.of_nat (seq 0 256))).
  { apply in_map_iff. exists (Z.to_nat v). split; [lia |]. apply in_seq. lia. }
  pose proof (proj1 (forallb_forall _ _) grey_table v Hin) as Ht.
  apply andb_true_iff in Ht as [Ht1 Ht2].
  apply Bool.eqb_prop in Ht1. apply negb_true_iff in Ht2.
  split.
  - destruct (toBinaryImage_pixels img BINARY_THRESHOLD Hwf)
      as (out & E & Hw & Hh & Hwf' & Hpix).
    exists out. split; [done |]. rewrite Hw.
    specialize (Hpix (y * width img + x) ltac:(nia)).
    fold (pixelOffset (width img) x y) in Hpix.
    by rewrite Hpix, El, Ht1.
  - destruct (toBinaryImage_pixels img 255%float Hwf)
      as (out & E & Hw & Hh & Hwf' & Hpix).
    exists out. split; [done |]. rewrite Hw.
    specialize (Hpix (y * width img + x) ltac:(nia)).
    fold (pixelOffset (width img) x y) in Hpix.
    by rewrite Hpix, El, Ht2.
Qed.

Lemma X10_grey_levels_witness :
  (∃ out,
     toBinaryImage (mkSrc 1 1 [white]) BINARY_THRESHOLD = Ok out ∧
     pixelBytes (data out) (pixelOffset (width out) 0 0)
     = if (128 <=? 255)%Z then opaqueWhite else opaqueBlack) ∧
  (∃ out,
     toBinaryImage (mkSrc 1 1 [white]) 255%float = Ok out ∧
     pixelBytes (data out) (pixelOffset (width out) 0 0) = opaqueBlack).
Proof.
  apply (X10_grey_levels (mkSrc 1 1 [white]) 0 0 255);
    [reflexivity | vm_compute; lia | vm_compute; lia | lia
    | reflexivity | reflexivity | reflexivity].
Defined.

(** ** The images on the canvas *)

Lemma downLoop_miss (idxs : list nat) (mouseX mouseY : Z) (images : list UI.MyImage) :
  (∀ j img, images !! j = Some img → UI.in_ img mouseX mouseY = false) →
  UI.downLoop idxs mouseX mouseY images = images.
Proof.
  intros Hmiss. induction idxs as [|i rest IH]; [done |]. cbn [UI.downLoop].
  destruct (images !! i) as [img|] eqn:Ei; [| done].
  by rewrite (Hmiss i img Ei).
Qed.





(** X12: a press outside every image changes nothing: no image is
    grabbed and none moves. *)
Theorem X12_mouseDown_miss (canvas : UI.Canvas) (e : UI.Event)
    (images : list UI.MyImage) (mouseX mouseY : Z) :
  UI.pointer UI.touchstart canvas e = Ok (mouseX, mouseY) →
  (∀ j img, images !! j = Some img → UI.in_ img mouseX mouseY = false) →
  UI.handleMouseDown canvas e images = Ok images.
Proof.
  intros Hp Hmiss.
  unfold UI.handleMouseDown. rewrite Hp. cbn [bind fst snd]. f_equal.
  by apply downLoop_miss.
Qed.

Lemma X12_mouseDown_miss_witness :
  UI.handleMouseDown (UI.mkCanvas 10 20) (UI.mkEvent UI.mousedown 100 23 [])
    (UI.sharedImages src21) = Ok (UI.sharedImages src21).
Proof.
  apply (X12_mouseDown_miss (UI.mkCanvas 10 20)
           (UI.mkEvent UI.mousedown 100 23 []) (UI.sharedImages src21) 90 3);
    [reflexivity |].
  intros j img Ej. destruct j as [|[|j]]; [| | discriminate Ej];
    injection Ej as <-; reflexivity.
Defined.

Lemma moveStep_length (mouseX mouseY : Z) (images : list UI.MyImage) (i : nat) :
  length (UI.moveStep mouseX mouseY images i) = length images.
Proof.
  unfold UI.moveStep. destruct (images !! i) as [img|]; [| done].
  destruct (UI.dragging img); [apply length_insert | done].
Qed.

Lemma moveStep_still (mouseX mouseY : Z) (images : list UI.MyImage) (i k : nat)
    (img : UI.MyImage) :
  images !! i = Some img → UI.dragging img = false →
  UI.moveStep mouseX mouseY images k !! i = Some img.
Proof.
  intros Ei Hd. unfold UI.moveStep.
  destruct (images !! k) as [img'|] eqn:Ek; [| done].
  destruct (UI.dragging img') eqn:Hd'; [| done].
  rewrite list_lookup_insert_ne; [done |]. intros ->. congruence.
Qed.

Lemma moves_still (mouseX mouseY : Z) (ks : list nat) (images : list UI.MyImage)
    (i : nat) (img : UI.MyImage) :
  images !! i = Some img → UI.dragging img = false →
  foldl (UI.moveStep mouseX mouseY) images ks !! i = Some img.
Proof.
  revert images. induction ks as [|k ks IH]; intros images Ei Hd; [done |].
  cbn [foldl]. apply IH; [| done]. by apply moveStep_still.
Qed.

Lemma moves_length (mouseX mouseY : Z) (ks : list nat) (images : list UI.MyImage) :
  length (foldl (UI.moveStep mouseX mouseY) images ks) = length images.
Proof.
  revert images. induction ks as [|k ks IH]; intros images; [done |].
  cbn [foldl]. by rewrite IH, moveStep_length.
Qed.

(** X13: a move of the pointer leaves every image that is not being dragged
    exactly as it was, and the array keeps its length. *)
Theorem X13_mouseMove_keeps_others (canvas : UI.Canvas) (e : UI.Event)
    (images : list UI.MyImage) (m : Z * Z) (i : nat) (img : UI.MyImage) :
  UI.pointer UI.touchmove canvas e = Ok m →
  images !! i = Some img → UI.dragging img = false →
  ∃ images',
    UI.handleMouseMove canvas e images = Ok images' ∧
    length images' = length images ∧
    images' !! i = Some img.
Proof.
  intros Hp Ei Hd. unfold UI.handleMouseMove. rewrite Hp. cbn [bind].
  eexists. split; [reflexivity |]. split; [apply moves_length |].
  by apply moves_still.
Qed.

Lemma X13_mouseMove_keeps_others_witness :
  ∃ images',
    UI.handleMouseMove (UI.mkCanvas 10 20) (UI.mkEvent UI.mousemove 13 22 [])
      (UI.sharedImages src21) = Ok images' ∧
    length images' = length (UI.sharedImages src21) ∧
    images' !! 0 = Some (UI.newMyImage 4 2 0 0).
Proof.
  apply (X13_mouseMove_keeps_others (UI.mkCanvas 10 20)
           (UI.mkEvent UI.mousemove 13 22 []) (UI.sharedImages src21) (3, 2)%Z 0
           (UI.newMyImage 4 2 0 0)); reflexivity.
Defined.

Lemma moves_none_dragging (mouseX mouseY : Z) (ks : list nat)
    (images : list UI.MyImage) :
  Forall (fun img => UI.dragging img = false) images →
  foldl (UI.moveStep mouseX mouseY) images ks = images.
Proof.
  intros Hall. induction ks as [|k ks IH]; [done |]. cbn [foldl].
  replace (UI.moveStep mouseX mouseY images k) with images; [done |].
  unfold UI.moveStep. destruct (images !! k) as [img|] eqn:Ek; [| done].
  by rewrite (proj1 (Forall_lookup _ _) Hall k img Ek).
Qed.

(** X14: after a release no image is being dragged and every image is
    where it was; a move of the pointer that follows changes nothing. *)
Theorem X14_mouseUp_then_move (canvas : UI.Canvas) (e : UI.Event)
    (images : list UI.MyImage) (m : Z * Z) :
  UI.pointer UI.touchmove canvas e = Ok m →
  Forall (fun img => UI.dragging img = false) (UI.handleMouseUp images) ∧
  map UI.position (UI.handleMouseUp images) = map UI.position images ∧
  UI.handleMouseMove canvas e (UI.handleMouseUp images)
  = Ok (UI.handleMouseUp images).
Proof.
  intros Hp.
  assert (Hall : Forall (fun img => UI.dragging img = false) (UI.handleMouseUp images)).
  { unfold UI.handleMouseUp. apply Forall_forall. intros img Hin.
    apply list_elem_of_In, in_map_iff in Hin as (img0 & <- & _). done. }
  split; [done |]. split.
  - unfold UI.handleMouseUp. rewrite map_map. by apply map_ext.
  - unfold UI.handleMouseMove. rewrite Hp. cbn [bind]. f_equal.
    by apply moves_none_dragging.
Qed.

Lemma X14_mouseUp_then_move_witness :
  Forall (fun img => UI.dragging img = false)
    (UI.handleMouseUp [UI.grab (UI.newMyImage 4 2 2 1) 3 2]) ∧
  map UI.position (UI.handleMouseUp [UI.grab (UI.newMyImage 4 2 2 1) 3 2])
  = map UI.position [UI.grab (UI.newMyImage 4 2 2 1) 3 2] ∧
  UI.handleMouseMove (UI.mkCanvas 10 20) (UI.mkEvent UI.mousemove 50 60 [])
    (UI.handleMouseUp [UI.grab (UI.newMyImage 4 2 2 1) 3 2])
  = Ok (UI.handleMouseUp [UI.grab (UI.newMyImage 4 2 2 1) 3 2]).
Proof.
  apply (X14_mouseUp_then_move (UI.mkCanvas 10 20)
           (UI.mkEvent UI.mousemove 50 60 [])
           [UI.grab (UI.newMyImage 4 2 2 1) 3 2] (40, 40)%Z).
  reflexivity.
Defined.

Lemma moveStep_other (mouseX mouseY : Z) (images : list UI.MyImage) (i k : nat) :
  UI.onlyDragged i images → k ≠ i → UI.moveStep mouseX mouseY images k = images.
Proof.
  intros Honly Hk. unfold UI.moveStep.
  destruct (images !! k) as [img|] eqn:Ek; [| done].
  by rewrite (Honly k img Hk Ek).
Qed.

Lemma moves_others (mouseX mouseY : Z) (ks : list nat) (images : list UI.MyImage)
    (i : nat) :
  UI.onlyDragged i images → i ∉ ks →
  foldl (UI.moveStep mouseX mouseY) images ks = images.
Proof.
  intros Honly. induction ks as [|k ks IH]; intros Hi; [done |]. cbn [foldl].
  apply not_elem_of_cons in Hi as [Hne Hi].
  rewrite (moveStep_other mouseX mouseY images i k Honly) by done. by apply IH.
Qed.

Lemma moveStep_onlyDragged (mouseX mouseY : Z) (images : list UI.MyImage) (i : nat) :
  UI.onlyDragged i images →
  UI.onlyDragged i (UI.moveStep mouseX mouseY images i).
Proof.
  intros Honly j img Hj Ej. apply (Honly j img Hj).
  unfold UI.moveStep in Ej. destruct (images !! i) as [img'|]; [| done].
  destruct (UI.dragging img'); [| done].
  by rewrite list_lookup_insert_ne in Ej.
Qed.

Lemma moves_only (mouseX mouseY : Z) (ks : list nat) (images : list UI.MyImage)
    (i : nat) :
  UI.onlyDragged i images → NoDup ks → i ∈ ks →
  foldl (UI.moveStep mouseX mouseY) images ks = UI.moveStep mouseX mouseY images i.
Proof.
  intros Honly Hnd. induction Hnd as [|k ks Hk Hnd IH]; intros Hi.
  - by apply elem_of_nil in Hi.
  - cbn [foldl]. destruct (decide (k = i)) as [-> | Hne].
    + apply moves_others with (i := i); [by apply moveStep_onlyDragged | done].
    + rewrite (moveStep_other mouseX mouseY images i k Honly) by done. apply IH.
      apply elem_of_cons in Hi as [-> | Hi]; done.
Qed.

Lemma snap_outOfReach (img img2 : UI.MyImage) :
  UI.outOfReach img img2 → UI.snap img img2 = img.
Proof.
  intros [Hx Hy]. unfold UI.snap.
  destruct (Z.ltb_spec (Z.abs (UI.x img - UI.x img2)) UI.SNAP_DISTANCE); [lia |].
  destruct (Z.ltb_spec (Z.abs (UI.y img - UI.y img2)) UI.SNAP_DISTANCE); [lia |].
  done.
Qed.

Lemma snapLoop_free (i : nat) (images : list UI.MyImage) (img : UI.MyImage) :
  (∀ j img2, j ≠ i → images !! j = Some img2 → UI.outOfReach img img2) →
  UI.snapLoop i images img = img.
Proof.
  intros Hfar. unfold UI.snapLoop. generalize (seq 0 (length images)). intros ks.
  induction ks as [|k ks IH]; [done |]. cbn [foldl].
  destruct (images !! k) as [img2|] eqn:Ek; [| done].
  destruct (decide (k = i)) as [-> | Hne]; [done |].
  by rewrite (snap_outOfReach img img2 (Hfar k img2 Hne Ek)).
Qed.

(** X15: while one image is dragged and no other image comes within the
    snapping distance of it on either axis, a move of the pointer shifts it
    by exactly the movement of the pointer since the last event, so the
    point it was grabbed at stays under the pointer; nothing else changes. *)
Theorem X15_mouseMove_free_drag (canvas : UI.Canvas) (e : UI.Event)
    (images : list UI.MyImage) (mouseX mouseY : Z) (i : nat) (img : UI.MyImage) :
  UI.pointer UI.touchmove canvas e = Ok (mouseX, mouseY) →
  images !! i = Some img → UI.dragging img = true →
  UI.onlyDragged i images →
  (∀ j img2, j ≠ i → images !! j = Some img2 →
             UI.outOfReach (UI.drag img mouseX mouseY) img2) →
  UI.handleMouseMove canvas e images
  = Ok (<[i := UI.drag img mouseX mouseY]> images) ∧
  (mouseX - UI.x (UI.drag img mouseX mouseY) = UI.lastX img - UI.x img)%Z ∧
  (mouseY - UI.y (UI.drag img mouseX mouseY) = UI.lastY img - UI.y img)%Z.
Proof.
  intros Hp Ei Hd Honly Hfar. split; [| cbn; lia].
  unfold UI.handleMouseMove. rewrite Hp. cbn [bind fst snd]. f_equal.
  rewrite (moves_only mouseX mouseY _ images i Honly);
    [| apply NoDup_seq | apply elem_of_seq; pose proof (lookup_lt_Some _ _ _ Ei); lia].
  unfold UI.moveStep. rewrite Ei, Hd. by rewrite snapLoop_free.
Qed.

Lemma X15_mouseMove_free_drag_witness :
  UI.handleMouseMove (UI.mkCanvas 10 20) (UI.mkEvent UI.mousemove 33 52 [])
    [UI.newMyImage 4 2 0 0; UI.grab (UI.newMyImage 4 2 2 1) 3 2]
  = Ok (<[1 := UI.drag (UI.grab (UI.newMyImage 4 2 2 1) 3 2) 23 32]>
          [UI.newMyImage 4 2 0 0; UI.grab (UI.newMyImage 4 2 2 1) 3 2]) ∧
  (23 - UI.x (UI.drag (UI.grab (UI.newMyImage 4 2 2 1) 3 2) 23 32)
   = UI.lastX (UI.grab (UI.newMyImage 4 2 2 1) 3 2)
     - UI.x (UI.grab (UI.newMyImage 4 2 2 1) 3 2))%Z ∧
  (32 - UI.y (UI.drag (UI.grab (UI.newMyImage 4 2 2 1) 3 2) 23 32)
   = UI.lastY (UI.grab (UI.newMyImage 4 2 2 1) 3 2)
     - UI.y (UI.grab (UI.newMyImage 4 2 2 1) 3 2))%Z.
Proof.
  apply (X15_mouseMove_free_drag (UI.mkCanvas 10 20)
           (UI.mkEvent UI.mousemove 33 52 [])
           [UI.newMyImage 4 2 0 0; UI.grab (UI.newMyImage 4 2 2 1) 3 2] 23 32 1
           (UI.grab (UI.newMyImage 4 2 2 1) 3 2));
    [reflexivity | reflexivity | reflexivity | |].
  - intros j img Hj Ej. destruct j as [|[|j]]; [| lia | discriminate Ej].
    injection Ej as <-. reflexivity.
  - intros j img Hj Ej. destruct j as [|[|j]]; [| lia | discriminate Ej].
    injection Ej as <-. split; vm_compute; discriminate.
Defined.

Lemma two_images_move (mouseX mouseY : Z) (a b : UI.MyImage) :
  UI.dragging a = false → UI.dragging b = true →
  foldl (UI.moveStep mouseX mouseY) [a; b] (seq 0 (length [a; b]))
  = [a; UI.snap (UI.drag b mouseX mouseY) a].
Proof.
  intros Ha Hb. cbn [length seq foldl]. unfold UI.moveStep at 2.
  cbn [lookup list_lookup]. rewrite Ha. unfold UI.moveStep.
  cbn [lookup list_lookup]. rewrite Hb. reflexivity.
Qed.

Lemma snap_drag_position (a b : UI.MyImage) (mouseX mouseY : Z) :
  UI.position (UI.snap (UI.drag b mouseX mouseY) a)
  = ((if (Z.abs (UI.x b + (mouseX - UI.lastX b) - UI.x a) <? 3)%Z
      then UI.x a else UI.x b + (mouseX - UI.lastX b))%Z,
     (if (Z.abs (UI.y b + (mouseY - UI.lastY b) - UI.y a) <? 3)%Z
      then UI.y a else UI.y b + (mouseY - UI.lastY b))%Z).
Proof.
  unfold UI.snap, UI.drag, UI.SNAP_DISTANCE, UI.position.
  cbn [UI.x UI.y UI.lastX UI.lastY].
  destruct (Z.abs (UI.x b + (mouseX - UI.lastX b) - UI.x a) <? 3)%Z;
    cbn [UI.x UI.y UI.lastX UI.lastY];
    destruct (Z.abs (UI.y b + (mouseY - UI.lastY b) - UI.y a) <? 3)%Z;
    reflexivity.
Qed.

(** X16: with two images on the canvas, one of them dragged: after a move
    the dragged image sits, on each axis on its own, on the coordinate of
    the other image when the move brings it strictly within the snapping
    distance 3 of it, and where the pointer took it otherwise; the other
    image does not move. *)
Theorem X16_two_images_snap (canvas : UI.Canvas) (e : UI.Event)
    (a b : UI.MyImage) (mouseX mouseY : Z) :
  UI.pointer UI.touchmove canvas e = Ok (mouseX, mouseY) →
  UI.dragging a = false → UI.dragging b = true →
  ∃ b',
    UI.handleMouseMove canvas e [a; b] = Ok [a; b'] ∧
    UI.x b' = (if (Z.abs (UI.x b + (mouseX - UI.lastX b) - UI.x a) <? 3)%Z
               then UI.x a else UI.x b + (mouseX - UI.lastX b))%Z ∧
    UI.y b' = (if (Z.abs (UI.y b + (mouseY - UI.lastY b) - UI.y a) <? 3)%Z
               then UI.y a else UI.y b + (mouseY - UI.lastY b))%Z ∧
    UI.lastX b' = mouseX ∧ UI.lastY b' = mouseY ∧ UI.dragging b' = true ∧
    UI.width b' = UI.width b ∧ UI.height b' = UI.height b.
Proof.
  intros Hp Ha Hb. unfold UI.handleMouseMove. rewrite Hp. cbn [bind fst snd].
  rewrite two_images_move by done. eexists. split; [reflexivity |].
  unfold UI.snap, UI.drag, UI.SNAP_DISTANCE. cbn [UI.x UI.y UI.lastX UI.lastY].
  destruct (Z.abs (UI.x b + (mouseX - UI.lastX b) - UI.x a) <? 3)%Z;
    cbn [UI.x UI.y UI.lastX UI.lastY];
    destruct (Z.abs (UI.y b + (mouseY - UI.lastY b) - UI.y a) <? 3)%Z;
    cbn; repeat split; try reflexivity; exact Hb.
Qed.

Lemma X16_two_images_snap_witness :
  ∃ b',
    UI.handleMouseMove (UI.mkCanvas 10 20) (UI.mkEvent UI.mousemove 12 52 [])
      [UI.newMyImage 4 2 0 0; UI.grab (UI.newMyImage 4 2 2 1) 3 2] = Ok
      [UI.newMyImage 4 2 0 0; b'] ∧
    UI.x b' = (if (Z.abs (UI.x (UI.grab (UI.newMyImage 4 2 2 1) 3 2)
                          + (2 - UI.lastX (UI.grab (UI.newMyImage 4 2 2 1) 3 2))
                          - UI.x (UI.newMyImage 4 2 0 0)) <? 3)%Z
               then UI.x (UI.newMyImage 4 2 0 0)
               else UI.x (UI.grab (UI.newMyImage 4 2 2 1) 3 2)
                    + (2 - UI.lastX (UI.grab (UI.newMyImage 4 2 2 1) 3 2)))%Z ∧
    UI.y b' = (if (Z.abs (UI.y (UI.grab (UI.newMyImage 4 2 2 1) 3 2)
                          + (32 - UI.lastY (UI.grab (UI.newMyImage 4 2 2 1) 3 2))
                          - UI.y (UI.newMyImage 4 2 0 0)) <? 3)%Z
               then UI.y (UI.newMyImage 4 2 0 0)
               else UI.y (UI.grab (UI.newMyImage 4 2 2 1) 3 2)
                    + (32 - UI.lastY (UI.grab (UI.newMyImage 4 2 2 1) 3 2)))%Z ∧
    UI.lastX b' = 2%Z ∧ UI.lastY b' = 32%Z ∧ UI.dragging b' = true ∧
    UI.width b' = UI.width (UI.grab (UI.newMyImage 4 2 2 1) 3 2) ∧
    UI.height b' = UI.height (UI.grab (UI.newMyImage 4 2 2 1) 3 2).
Proof.
  apply (X16_two_images_snap (UI.mkCanvas 10 20) (UI.mkEvent UI.mousemove 12 52 [])
           (UI.newMyImage 4 2 0 0) (UI.grab (UI.newMyImage 4 2 2 1) 3 2) 2 32);
    reflexivity.
Defined.

(** X17: the two shares as [shareImage] lays them out, one at the origin
    and one at half the share size.  A press inside the second share grabs
    it, also where the two overlap, since it is the last in the array; a
    move that brings it strictly within 3 pixels of the first share on both
    axes puts both shares at the same position, so that they are stacked
    pixel on pixel. *)
Theorem X17_shares_snap_together (canvas : UI.Canvas) (down move : UI.Event)
    (src : ImageData) (mouseX mouseY mouseX' mouseY' : Z) :
  UI.pointer UI.touchstart canvas down = Ok (mouseX, mouseY) →
  UI.pointer UI.touchmove canvas move = Ok (mouseX', mouseY') →
  (Z.of_nat (width src) <= mouseX <= 3 * Z.of_nat (width src))%Z →
  (Z.of_nat (height src) <= mouseY <= 3 * Z.of_nat (height src))%Z →
  (Z.abs (Z.of_nat (width src) + (mouseX' - mouseX)) < 3)%Z →
  (Z.abs (Z.of_nat (height src) + (mouseY' - mouseY)) < 3)%Z →
  ∃ images1 images2,
    UI.handleMouseDown canvas down (UI.sharedImages src) = Ok images1 ∧
    UI.handleMouseMove canvas move images1 = Ok images2 ∧
    map UI.position (UI.sharedImages src)
      = [(0, 0); (Z.of_nat (width src), Z.of_nat (height src))]%Z ∧
    map UI.position images2 = [(0, 0); (0, 0)]%Z.
Proof.
  intros Hd Hm Hx Hy Hsx Hsy.
  set (sw := Z.of_nat (width src)) in *. set (sh := Z.of_nat (height src)) in *.
  assert (Eimgs : UI.sharedImages src
            = [UI.newMyImage (sw * 2) (sh * 2) 0 0; UI.newMyImage (sw * 2) (sh * 2) sw sh]).
  { unfold UI.sharedImages. fold sw sh. rewrite !Z.div_mul by lia.
    by rewrite !Z.mul_0_r, !Z.mul_1_r. }
  rewrite Eimgs.
  assert (Hin : UI.in_ (UI.newMyImage (sw * 2) (sh * 2) sw sh) mouseX mouseY = true).
  { unfold UI.in_. cbn. rewrite !andb_true_iff, !Z.leb_le. lia. }
  exists [UI.newMyImage (sw * 2) (sh * 2) 0 0;
          UI.grab (UI.newMyImage (sw * 2) (sh * 2) sw sh) mouseX mouseY].
  eexists. split; [| split; [| split]].
  - unfold UI.handleMouseDown. rewrite Hd. cbn [bind fst snd length seq reverse].
    change (reverse [0; 1]) with [1; 0]. cbn [UI.downLoop lookup list_lookup].
    by rewrite Hin.
  - unfold UI.handleMouseMove. rewrite Hm. cbn [bind fst snd].
    by rewrite two_images_move.
  - reflexivity.
  - cbn [map]. rewrite snap_drag_position. cbn [UI.x UI.y UI.lastX UI.lastY UI.grab UI.newMyImage].
    rewrite !Z.sub_0_r.
    rewrite (proj2 (Z.ltb_lt _ _) Hsx), (proj2 (Z.ltb_lt _ _) Hsy). reflexivity.
Qed.

Lemma X17_shares_snap_together_witness :
  ∃ images1 images2,
    UI.handleMouseDown (UI.mkCanvas 10 20) (UI.mkEvent UI.mousedown 13 22 [])
      (UI.sharedImages src21) = Ok images1 ∧
    UI.handleMouseMove (UI.mkCanvas 10 20) (UI.mkEvent UI.mousemove 12 22 [])
      images1 = Ok images2 ∧
    map UI.position (UI.sharedImages src21)
      = [(0, 0); (Z.of_nat (width src21), Z.of_nat (height src21))]%Z ∧
    map UI.position images2 = [(0, 0); (0, 0)]%Z.
Proof.
  apply (X17_shares_snap_together (UI.mkCanvas 10 20)
           (UI.mkEvent UI.mousedown 13 22 []) (UI.mkEvent UI.mousemove 12 22 [])
           src21 3 2 2 2);
    [reflexivity | reflexivity | vm_compute; split; discriminate
    | vm_compute; split; discriminate | reflexivity | reflexivity].
Defined.

End Vsss.
